(** * edc_utils.review_derived_variables

    A shallow embedding of [ReviewDerivedVariables]
    (src/edc_utils/review_derived_variables.py) and the properties of its
    combination sources, its runner and its unhandled-record reporting.

    Python values are modelled by [pyval]; the instance's two tables
    ([data_values], [data_exceptions]) are finite maps keyed by the
    classifier name; the inner tally dictionary and the [models]
    dictionary are insertion-ordered association lists, as Python's [dict]
    is; raised exceptions are explicit results, and the instance's state
    survives a raise, as a mutated Python object does. *)

From Stdlib Require Import ZArith Ascii.
From stdpp Require Import gmap strings list fin_maps sorting.

Local Open Scope string_scope.
Local Open Scope list_scope.

(** ** Python values *)

Inductive pyval : Type :=
  | VNone
  | VBool (b : bool)
  | VInt (n : Z)
  | VStr (s : string).

#[global] Instance pyval_eq_dec : EqDecision pyval.
Proof. solve_decision. Defined.

Definition bool_to_Z (b : bool) : Z := if b then 1%Z else 0%Z.

(** Python's [==] on these values: [bool] is a subclass of [int], so
    [True == 1] and [False == 0]. *)
Definition py_eq (x y : pyval) : bool :=
  match x, y with
  | VNone, VNone => true
  | VBool a, VBool b => Bool.eqb a b
  | VInt m, VInt n => (m =? n)%Z
  | VBool b, VInt n | VInt n, VBool b => (n =? bool_to_Z b)%Z
  | VStr s, VStr t => String.eqb s t
  | _, _ => false
  end.

(** Python's truth value. *)
Definition truthy (x : pyval) : bool :=
  match x with
  | VNone => false
  | VBool b => b
  | VInt n => negb (n =? 0)%Z
  | VStr s => negb (String.eqb s "")
  end.

(** [x is True]. *)
Definition is_True (x : pyval) : bool :=
  match x with
  | VBool true => true
  | _ => false
  end.

(** [==] on lists (and on tuples): same length, elements pairwise [==]. *)
Fixpoint py_list_eq (xs ys : list pyval) : bool :=
  match xs, ys with
  | [], [] => true
  | x :: xs', y :: ys' => py_eq x y && py_list_eq xs' ys'
  | _, _ => false
  end.

(** [x in l] for a list [l] of lists. *)
Definition py_in (x : list pyval) (l : list (list pyval)) : bool :=
  existsb (py_list_eq x) l.

(** ** Python dictionaries, insertion ordered *)

Module PyDict.
Section Dict.
Context {K V : Type} (keq : K → K → bool).

Fixpoint get (d : list (K * V)) (k : K) : option V :=
match d with
| [] => None
| (k', v) :: d' => if keq k' k then Some v else get d' k
end.

(** [d[k] = v] and [d.update({k: v})]: an existing key keeps its place
  and its first-inserted key object; a new key goes last. *)
Fixpoint set (d : list (K * V)) (k : K) (v : V) : list (K * V) :=
match d with
| [] => [(k, v)]
| (k', v') :: d' =>
    if keq k' k then (k', v) :: d' else (k', v') :: set d' k v
end.

Definition values (d : list (K * V)) : list V := map snd d.
Definition keys (d : list (K * V)) : list K := map fst d.

(** [dict(pairs)] *)
Definition of_pairs (ps : list (K * V)) : list (K * V) :=
foldl (λ d p, set d p.1 p.2) [] ps.
End Dict.
End PyDict.

(** ** Exceptions and generators *)

(** A source entity (a subject visit) is opaque: it is identified by its
    primary key. *)
Definition visit : Type := nat.

(** The namedtuple [Record] is its tuple of values, in field order. *)
Definition record : Type := list pyval.

(** A combination: the record and the visit it was looked up from, [None]
    when there is none. *)
Definition combination : Type := record * option visit.

Inductive exn : Type :=
  | KeyError (key : string)
  | AttributeError (name : string)
  | IndexValueError (x : string)
      (** [list.index(x)]: x is not in list *)
  | DuplicateFieldName
      (** [namedtuple]: a field name is repeated *)
  | UnhandledRecord (fn_name : string) (opts : list pyval).
      (** [ValueError('Unhandled record for \'{}\'. Got opts {}'
             .format(fn_name, list(record)))] *)

Definition result (A : Type) : Type := exn + A.

(** What a generator does when it is run to its end: the items it yields
    and then either [StopIteration] ([None]) or a raised exception. *)
Record gen (A : Type) : Type := Gen {
  yielded : list A;
  raised : option exn
}.
Arguments Gen {A} _ _.
Arguments yielded {A} _.
Arguments raised {A} _.

(** ** The external model layer *)

(** A model instance: its attributes. [getattr] raises [AttributeError]
    on a name that is not there. *)
Definition instance : Type := gmap string pyval.

(** A model class: [_meta.object_name], the row for a visit
    ([objects.get(subject_visit=...)], [None] for [DoesNotExist]; these
    models hold at most one row per visit) and the unsaved instance
    [model()]. *)
Record model : Type := Model {
  object_name : string;
  objects_get : visit → option instance;
  blank : instance
}.

(** ** Classifiers *)

(** A call [self.update_exceptions(fn_name, record, subject_visit)]. *)
Record report : Type := Report {
  report_fn : string;
  report_record : record;
  report_visit : option visit
}.

(** A test method [fn_...(self, record, subject_visit)]: the calls of
    [update_exceptions] it makes, in order, and the value it returns when
    none of them raises. *)
Definition classifier : Type := record → option visit → list report * pyval.

(** ** The review class: what a subclass declares *)

Record review_class : Type := ReviewClass {
  fields : list string;
  models : list model;
  (** the visits selected by [visit_model_filter] and not removed by
      [visit_model_exclude], in the query set's iteration order *)
  visit_queryset : list visit;
  (** the class attributes holding option lists, by attribute name *)
  opts_attrs : gmap string (list pyval);
  (** the methods, by attribute name *)
  methods : gmap string classifier
}.

Definition method_prefix : string := "fn_".
Definition options_prefix : string := "opts_".

(** ** itertools.product *)

(** After the equivalent code of the Python library reference:
<<
    result = [[]]
    for pool in pools:
        result = [x+[y] for x in result for y in pool]
>> *)
Definition product_step (result : list (list pyval)) (pool : list pyval)
  : list (list pyval) :=
  flat_map (λ x, map (λ y, x ++ [y]) pool) result.

Definition product (pools : list (list pyval)) : list (list pyval) :=
  foldl product_step [[]] pools.

(** The cartesian product as nested iteration, the first list in the
    outermost loop and the last list in the innermost one. *)
Fixpoint nested_product (pools : list (list pyval)) : list (list pyval) :=
  match pools with
  | [] => [[]]
  | pool :: pools' =>
      flat_map (λ x, map (λ t, x :: t) (nested_product pools')) pool
  end.

(** ** generate_combinations *)

Definition getattr_opts (cls : review_class) (name : string)
  : result (list pyval) :=
  match opts_attrs cls !! name with
  | Some l => inr l
  | None => inl (AttributeError name)
  end.

(** [[getattr(self, self.options_prefix + attr) for attr in ..._fields]] *)
Fixpoint collect_opts (cls : review_class) (attrs : list string)
  : result (list (list pyval)) :=
  match attrs with
  | [] => inr []
  | attr :: attrs' =>
      match getattr_opts cls (options_prefix +:+ attr) with
      | inl e => inl e
      | inr l =>
          match collect_opts cls attrs' with
          | inl e => inl e
          | inr ls => inr (l :: ls)
          end
      end
  end.

Definition generate_combinations (cls : review_class) : gen combination :=
  match collect_opts cls (fields cls) with
  | inl e => Gen [] (Some e)
  | inr opts => Gen (map (λ values_list, (values_list, None)) (product opts)) None
  end.

(** ** Looking combinations up from the data *)

(** [str.lower()], on the ASCII letters that class names are made of. *)
Definition ascii_lower (c : ascii) : ascii :=
  let n := nat_of_ascii c in
  if (65 <=? n)%nat && (n <=? 90)%nat then ascii_of_nat (n + 32) else c.

Fixpoint lower (s : string) : string :=
  match s with
  | EmptyString => EmptyString
  | String c s' => String (ascii_lower c) (lower s')
  end.

(** [self.models] after [__init__]:
    [dict(zip([model._meta.object_name.lower() for model in self.models],
              self.models))] *)
Definition models_dict (cls : review_class) : list (string * model) :=
  PyDict.of_pairs String.eqb
    (zip (map (λ model, lower (object_name model)) (models cls)) (models cls)).

(** The body of the [try] in [objects]: the row, or [model()] on
    [DoesNotExist]. *)
Definition get_or_blank (m : model) (subject_visit : visit) : instance :=
  match objects_get m subject_visit with
  | Some obj => obj
  | None => blank m
  end.

Definition objects (cls : review_class) (subject_visit : visit)
  : list (string * instance) :=
  foldl (λ objects '(model_name, model),
           PyDict.set String.eqb objects model_name
             (get_or_blank model subject_visit))
        [] (models_dict cls).

Definition getattr (obj : instance) (name : string) : result pyval :=
  match obj !! name with
  | Some v => inr v
  | None => inl (AttributeError name)
  end.

(** The loop of [get_field_value]; [value] is the local variable. *)
Fixpoint get_field_value_loop (field_name : string) (value : pyval)
    (instances : list instance) : pyval :=
  match instances with
  | [] => value
  | inst :: rest =>
      match getattr inst field_name with
      | inr v => v                                        (* break *)
      | inl _ => get_field_value_loop field_name value rest  (* pass *)
      end
  end.

Definition get_field_value (cls : review_class) (field_name : string)
    (subject_visit : visit) : pyval :=
  get_field_value_loop field_name VNone
    (PyDict.values (objects cls subject_visit)).

(** [l.index(x)]: the first position holding a value [==] to [x]. *)
Fixpoint py_index (l : list pyval) (x : pyval) : option nat :=
  match l with
  | [] => None
  | y :: l' => if py_eq y x then Some 0 else S <$> py_index l' x
  end.

(** The loop of [values_list_from] over the field names still to do. *)
Fixpoint values_list_loop (cls : review_class) (subject_visit : visit)
    (names : list string) (values_list : list pyval) : result (list pyval) :=
  match names with
  | [] => inr values_list
  | field_name :: names' =>
      match py_index values_list (VStr field_name) with
      | None => inl (IndexValueError field_name)
      | Some i =>
          values_list_loop cls subject_visit names'
            (<[i := get_field_value cls field_name subject_visit]> values_list)
      end
  end.

Definition values_list_from (cls : review_class) (subject_visit : visit)
  : result (list pyval) :=
  values_list_loop cls subject_visit (fields cls) (map VStr (fields cls)).

(** The loop of [lookup_combinations]; [found] is the local list. *)
Fixpoint lookup_loop (cls : review_class) (use_unique_combinations : pyval)
    (found : list (list pyval)) (subject_visits : list visit)
  : gen combination :=
  match subject_visits with
  | [] => Gen [] None
  | subject_visit :: rest =>
      match values_list_from cls subject_visit with
      | inl e => Gen [] (Some e)
      | inr values_list =>
          if negb (py_in values_list found) then
            let found' :=
              if truthy use_unique_combinations
              then found ++ [values_list] else found in
            let g := lookup_loop cls use_unique_combinations found' rest in
            Gen ((values_list, Some subject_visit) :: yielded g) (raised g)
          else lookup_loop cls use_unique_combinations found rest
      end
  end.

Definition lookup_combinations (cls : review_class)
    (use_unique_combinations : pyval) : gen combination :=
  lookup_loop cls use_unique_combinations [] (visit_queryset cls).

(** [records_for] *)
Definition records_for (cls : review_class) (values_list : list pyval)
  : list combination :=
  map (λ subject_visit, (values_list, Some subject_visit)) (visit_queryset cls).

(** ** The instance *)

(** An entry of an exception log: [[list(record), subject_visit]], or the
    bare [list(record)]. *)
Inductive log_entry : Type :=
  | EntryPair (opts : list pyval) (subject_visit : visit)
  | EntryOpts (opts : list pyval).

(** [self.combinations]: the caller's list, or one of the two generators,
    which hands out each item once. *)
Inductive combinations_source : Type :=
  | CombList (items : list combination)
  | CombGen (g : gen combination).

Record state : Type := State {
  data_values : gmap string (list (pyval * nat));
  data_exceptions : gmap string (list log_entry);
  raise_exceptions : bool;
  use_unique_combinations : pyval;
  combinations : combinations_source;
  fn_names : list string
}.

Definition set_data_values (f : gmap string (list (pyval * nat)) →
                                gmap string (list (pyval * nat)))
    (st : state) : state :=
  State (f (data_values st)) (data_exceptions st) (raise_exceptions st)
        (use_unique_combinations st) (combinations st) (fn_names st).

Definition set_data_exceptions (f : gmap string (list log_entry) →
                                    gmap string (list log_entry))
    (st : state) : state :=
  State (data_values st) (f (data_exceptions st)) (raise_exceptions st)
        (use_unique_combinations st) (combinations st) (fn_names st).

Definition set_combinations (c : combinations_source) (st : state) : state :=
  State (data_values st) (data_exceptions st) (raise_exceptions st)
        (use_unique_combinations st) c (fn_names st).

(** Code that reads and writes the instance and may raise. *)
Definition M (A : Type) : Type := state → state * result A.

Definition ret {A} (a : A) : M A := λ st, (st, inr a).
Definition raise {A} (e : exn) : M A := λ st, (st, inl e).
Definition bind {A B} (m : M A) (k : A → M B) : M B :=
  λ st, match m st with
        | (st', inl e) => (st', inl e)
        | (st', inr a) => k a st'
        end.
Definition gets {A} (f : state → A) : M A := λ st, (st, inr (f st)).
Definition modify (f : state → state) : M unit := λ st, (f st, inr tt).

Notation "'let*' x ':=' m 'in' k" := (bind m (λ x, k))
  (at level 10, x name, m at level 100, k at level 200).
Notation "m ';;' k" := (bind m (λ _, k))
  (at level 100, k at level 200, right associativity).

(** [for x in l: body(x)] *)
Fixpoint for_each {A} (l : list A) (body : A → M unit) : M unit :=
  match l with
  | [] => ret tt
  | x :: l' => body x;; for_each l' body
  end.

(** ** The tally *)

Definition increment_counter (value : pyval) (fn_name : string) : M unit :=
  λ st,
    match data_values st !! fn_name with
    | None => (st, inl (KeyError fn_name))
    | Some d =>
        let d1 :=
          match PyDict.get py_eq d value with
          | Some _ => d
          | None => PyDict.set py_eq d value 0       (* except KeyError *)
          end in
        let d2 :=
          PyDict.set py_eq d1 value (default 0 (PyDict.get py_eq d1 value) + 1) in
        (set_data_values (<[fn_name := d2]>) st, inr tt)
    end.

(** ** Unhandled records *)

Definition update_exceptions (fn_name : string) (record : record)
    (subject_visit : option visit) : M unit :=
  λ st,
    match data_exceptions st !! fn_name with
    | None => (st, inl (KeyError fn_name))
    | Some log =>
        let entry :=
          match subject_visit with
          | Some v => EntryPair record v
          | None => EntryOpts record
          end in
        let st' := set_data_exceptions (<[fn_name := log ++ [entry]]>) st in
        if raise_exceptions st'
        then (st', inl (UnhandledRecord fn_name record))
        else (st', inr tt)
    end.

(** ** The runner *)

(** [getattr(self, fn_name)(record, subject_visit)] *)
Definition call_method (cls : review_class) (fn_name : string)
    (record : record) (subject_visit : option visit) : M pyval :=
  match (methods cls !! fn_name : option classifier) with
  | None => raise (AttributeError fn_name)
  | Some fn =>
      let '(reports, value) := fn record subject_visit in
      for_each reports (λ r,
        update_exceptions (report_fn r) (report_record r) (report_visit r));;
      ret value
  end.

(** The body of the outer loop of [run_all]. *)
Definition run_one (cls : review_class) (fns : list string)
    (c : combination) : M unit :=
  let '(record, subject_visit) := c in
  for_each fns (λ fn_name,
    let* value := call_method cls fn_name record subject_visit in
    increment_counter value fn_name).

(** Iterating a generator: each [next()] takes the item out of the
    generator before the loop body runs; at the end the generator is
    finished, also when it ended by raising. *)
Fixpoint for_gen (items : list combination) (raised : option exn)
    (body : combination → M unit) : M unit :=
  match items with
  | [] =>
      modify (set_combinations (CombGen (Gen [] None)));;
      match raised with
      | Some e => raise e
      | None => ret tt
      end
  | c :: items' =>
      modify (set_combinations (CombGen (Gen items' raised)));;
      body c;;
      for_gen items' raised body
  end.

Definition for_combinations (body : combination → M unit) : M unit :=
  let* source := gets combinations in
  match source with
  | CombList items => for_each items body
  | CombGen g => for_gen (yielded g) (raised g) body
  end.

Definition run_all (cls : review_class) : M unit :=
  let* fns := gets fn_names in
  for_each fns (λ fn_name,
    modify (set_data_values (<[fn_name := []]>));;
    modify (set_data_exceptions (<[fn_name := []]>)));;
  for_combinations (run_one cls fns).

(** ** __init__ *)

Record init_args : Type := InitArgs {
  arg_combinations : option (list combination);
  arg_lookup_combinations : pyval;
  arg_raise_exceptions : pyval;
  arg_run_all : pyval;
  arg_use_unique_combinations : pyval;
  arg_fn_name : option string
}.

(** The default arguments: every one of them is [None]. *)
Definition no_args : init_args :=
  InitArgs None VNone VNone VNone VNone None.

Definition string_le (s t : string) : Prop := Is_true (String.leb s t).

#[global] Instance string_le_dec s t : Decision (string_le s t).
Proof. unfold string_le. apply _. Defined.

(** The names [dir(self)] lists that start with [method_prefix]; [dir]
    lists each name once, in sorted order. Only methods have such names. *)
Definition dir_fn_names (cls : review_class) : list string :=
  filter (λ fn, Is_true (String.prefix method_prefix fn))
    (merge_sort string_le (map fst (map_to_list (methods cls)))).

(** The instance before [__init__] has assigned anything. *)
Definition blank_state : state :=
  State ∅ ∅ false VNone (CombList []) [].

(** [namedtuple('Record', ' '.join(self.fields))] refuses a repeated
    field name. *)
Definition make_record_class (cls : review_class) : M unit :=
  if bool_decide (NoDup (fields cls)) then ret tt else raise DuplicateFieldName.

Definition init_combinations (cls : review_class) (args : init_args)
    (use_unique : pyval) : combinations_source :=
  match arg_combinations args with
  | Some (c :: cs) => CombList (c :: cs)
  | _ =>
      if truthy (arg_lookup_combinations args)
      then CombGen (lookup_combinations cls use_unique)
      else CombGen (generate_combinations cls)
  end.

Definition init_fn_names (cls : review_class) (args : init_args)
  : list string :=
  match arg_fn_name args with
  | Some (String c s) => [String c s]
  | _ => dir_fn_names cls
  end.

Definition set_raise_exceptions (b : bool) (st : state) : state :=
  State (data_values st) (data_exceptions st) b
        (use_unique_combinations st) (combinations st) (fn_names st).

Definition set_use_unique_combinations (v : pyval) (st : state) : state :=
  State (data_values st) (data_exceptions st) (raise_exceptions st)
        v (combinations st) (fn_names st).

Definition set_fn_names (fns : list string) (st : state) : state :=
  State (data_values st) (data_exceptions st) (raise_exceptions st)
        (use_unique_combinations st) (combinations st) fns.

(** The assignments of [__init__], in the order of the source. The
    [models] dictionary and the visits are read off the class where they
    are used ([models_dict], [visit_queryset]). *)
Definition init (cls : review_class) (args : init_args) : state * result unit :=
  (modify (set_data_values (λ _, ∅));;
   modify (set_data_exceptions (λ _, ∅));;
   modify (set_raise_exceptions (is_True (arg_raise_exceptions args)));;
   make_record_class cls;;
   modify (set_use_unique_combinations (arg_use_unique_combinations args));;
   modify (set_combinations
             (init_combinations cls args (arg_use_unique_combinations args)));;
   modify (set_fn_names (init_fn_names cls args));;
   if truthy (arg_run_all args) then run_all cls else ret tt) blank_state.

(** * The vocabulary of the properties *)

(** How often a tuple occurs among the nested iterations: once per way
    of picking each of its components from the list at its position. *)
Fixpoint multiplicity (t : list pyval) (pools : list (list pyval)) : nat :=
  match t, pools with
  | [], [] => 1
  | x :: t', pool :: pools' =>
      count_occ pyval_eq_dec pool x * multiplicity t' pools'
  | _, _ => 0
  end.

(** Every field of [cls] has its option list: [opts] lists them in
    field order. *)
Definition option_lists (cls : review_class) (opts : list (list pyval))
  : Prop :=
  Forall2 (λ attr pool, opts_attrs cls !! (options_prefix +:+ attr) = Some pool)
          (fields cls) opts.

(** No value looked up for a field is the name of a field that comes
    later in the record. *)
Fixpoint later_names_fresh (cls : review_class) (subject_visit : visit)
    (names : list string) : Prop :=
  match names with
  | [] => True
  | f :: names' =>
      Forall (λ g, get_field_value cls f subject_visit ≠ VStr g) names'
      ∧ later_names_fresh cls subject_visit names'
  end.

(** What [update_exceptions] appends. *)
Definition entry_of (record : record) (subject_visit : option visit)
  : log_entry :=
  match subject_visit with
  | Some v => EntryPair record v
  | None => EntryOpts record
  end.

Definition is_pair (e : log_entry) : bool :=
  match e with
  | EntryPair _ _ => true
  | EntryOpts _ => false
  end.

Definition same_config (st st' : state) : Prop :=
  raise_exceptions st' = raise_exceptions st
  ∧ fn_names st' = fn_names st
  ∧ use_unique_combinations st' = use_unique_combinations st.

Definition keeps_config {A} (m : M A) : Prop :=
  ∀ st, same_config st (m st).1.

(** The sum of the counts of a tally dictionary. *)
Definition sum_counts (d : list (pyval * nat)) : nat :=
  foldr (λ kv acc, kv.2 + acc) 0 d.

(** The sum of the counts recorded for a classifier, when it has a
    tally. *)
Definition tally (st : state) (fn_name : string) : option nat :=
  sum_counts <$> data_values st !! fn_name.

(** The counter incremented by [increment_counter]. *)
Definition bump (d : list (pyval * nat)) (value : pyval)
  : list (pyval * nat) :=
  let d1 := match PyDict.get py_eq d value with
            | Some _ => d
            | None => PyDict.set py_eq d value 0
            end in
  PyDict.set py_eq d1 value (default 0 (PyDict.get py_eq d1 value) + 1).

(** The tallies after a loop over classifier names: those of the names
    gone through are [n] higher, the others are as before. *)
Definition tallies_raised (fns : list string) (n : nat) (st st' : state)
  : Prop :=
  ∀ fn_name,
    tally st' fn_name
    = if decide (fn_name ∈ fns)
      then (λ k, k + n) <$> tally st fn_name
      else tally st fn_name.

Definition keeps_tallies {A} (m : M A) : Prop :=
  ∀ st, data_values (m st).1 = data_values st.

(** The combinations a run goes through when nothing makes it stop. *)
Definition combinations_of (st : state) : list combination :=
  match combinations st with
  | CombList items => items
  | CombGen g => yielded g
  end.

(** The first loop of [run_all]: empty tables for the names. *)
Definition reset_tables (fns : list string) : M unit :=
  for_each fns (λ fn_name,
    modify (set_data_values (<[fn_name := []]>));;
    modify (set_data_exceptions (<[fn_name := []]>))).

(** No classifier of [fns] reports the combination [c]. *)
Definition quiet (cls : review_class) (fns : list string) (c : combination)
  : Prop :=
  ∀ fn_name, fn_name ∈ fns →
    ∃ fn value, methods cls !! fn_name = Some fn
                ∧ fn c.1 c.2 = ([], value).

(** The classifiers of [fns] have their tallies. *)
Definition registered (fns : list string) (st : state) : Prop :=
  ∀ fn_name, fn_name ∈ fns → is_Some (data_values st !! fn_name).

(** What a classifier call leaves alone. *)
Definition frame (st st' : state) : Prop :=
  data_exceptions st' = data_exceptions st
  ∧ combinations st' = combinations st
  ∧ raise_exceptions st' = raise_exceptions st.

(** The value a classifier returns for a combination, when the method
    exists. *)
Definition classify (cls : review_class) (fn_name : string) (c : combination)
  : option pyval :=
  (λ fn : classifier, (fn c.1 c.2).2) <$> methods cls !! fn_name.

(** The calls of [update_exceptions] a classifier makes for a
    combination. *)
Definition reports_of (cls : review_class) (fn_name : string)
    (c : combination) : list report :=
  match methods cls !! fn_name with
  | Some fn => (fn c.1 c.2).1
  | None => []
  end.

(** All the calls of [update_exceptions] of a run, in the order of the
    two loops of [run_all]. *)
Definition all_reports (cls : review_class) (fns : list string)
    (items : list combination) : list report :=
  flat_map (λ c, flat_map (λ fn_name, reports_of cls fn_name c) fns) items.

(** The log entries of the calls made for the classifier [fn_name]. *)
Definition entries_for (fn_name : string) (reports : list report)
  : list log_entry :=
  map (λ r, entry_of (report_record r) (report_visit r))
      (filter (λ r, report_fn r = fn_name) reports).

(** How many of the values are [==] to [v]. *)
Fixpoint count_value (v : pyval) (values : list pyval) : nat :=
  match values with
  | [] => 0
  | w :: values' => (if py_eq w v then 1 else 0) + count_value v values'
  end.



(** The two tables are the same in both states. *)
Definition same_tables (st st' : state) : Prop :=
  data_values st' = data_values st
  ∧ data_exceptions st' = data_exceptions st.

(** The loop body has run to its end for each item in turn; between two
    runs the tables stay as they are (the generator's bookkeeping). *)
Inductive run_steps (body : combination → M unit)
  : list combination → state → state → Prop :=
  | run_steps_nil st st' :
      same_tables st st' → run_steps body [] st st'
  | run_steps_cons c items st st0 st1 st' :
      same_tables st st0 →
      body c st0 = (st1, inr tt) →
      run_steps body items st1 st' →
      run_steps body (c :: items) st st'.


(** Code that leaves [self.combinations] as it is. *)
Definition keeps_combinations {A} (m : M A) : Prop :=
  ∀ st, combinations (m st).1 = combinations st.

(** * Classes and instances of the examples *)

(** A class with one field whose option list repeats a value. *)
Definition cls_repeated_option : review_class :=
  ReviewClass ["a"] [] [] (<["opts_a" := [VInt 0; VInt 0]]> ∅) ∅.

(** The class of the example: fields [a] and [b], options 0 and 1. *)
Definition cls_two_bits : review_class :=
  ReviewClass ["a"; "b"] [] []
    (<["opts_a" := [VInt 0; VInt 1]]> (<["opts_b" := [VInt 0; VInt 1]]> ∅)) ∅.

(** A record of two fields [a] and [b], and a visit (number 1) whose row
    has the string ['b'] in [a] and ['x'] in [b]. *)
Definition crf_shadow : model :=
  Model "Crf"
    (λ subject_visit,
       if (subject_visit =? 1)%nat
       then Some (<["a" := VStr "b"]> (<["b" := VStr "x"]> ∅))
       else None)
    ∅.

Definition cls_shadow : review_class :=
  ReviewClass ["a"; "b"] [crf_shadow] [1] ∅ ∅.

(** Two models and four rows of visits: visit 1 comes twice in the query
    set, and visits 2 and 3 have the same values. *)
Definition crf_one : model :=
  Model "CrfOne"
    (λ subject_visit,
       if (subject_visit =? 1)%nat then Some (<["a" := VInt 7]> ∅) else None)
    (<["a" := VNone]> ∅).

Definition crf_two : model :=
  Model "CrfTwo" (λ _, Some (<["b" := VStr "x"]> ∅)) ∅.

Definition cls_visits : review_class :=
  ReviewClass ["a"; "b"] [crf_one; crf_two] [1; 2; 3; 1] ∅ ∅.

(** The instance with the given flag and one classifier, [fn_a], whose
    tables are empty, as [run_all] sets them up. *)
Definition st_one_fn (raise_flag : bool) : state :=
  State (<["fn_a" := []]> ∅) (<["fn_a" := []]> ∅) raise_flag VNone
        (CombList []) ["fn_a"].

(** A class with one field and two classifiers: [fn_kind] cannot place
    the option 1 and reports it; [fn_seen] accepts everything. *)
Definition fn_kind : classifier :=
  λ record subject_visit,
    match record with
    | [VInt 0] => ([], VStr "zero")
    | [VInt 1] => ([Report "fn_kind" record subject_visit], VNone)
    | _ => ([], VStr "many")
    end.

Definition fn_seen : classifier := λ _ _, ([], VBool true).

Definition cls_kinds : review_class :=
  ReviewClass ["a"] [] []
    (<["opts_a" := [VInt 0; VInt 1; VInt 2; VInt 3]]> ∅)
    (<["fn_kind" := fn_kind]> (<["fn_seen" := fn_seen]> ∅)).

(** [__init__] with [run_all] and [raise_exceptions] as given. *)
Definition args_run (raise_flag : pyval) : init_args :=
  InitArgs None VNone raise_flag (VBool true) VNone None.

(** The instance of [cls_kinds] that [__init__] leaves when it is not
    asked to run. *)
Definition st_kinds (raise_flag : pyval) : state :=
  (init cls_kinds (InitArgs None VNone raise_flag VNone VNone None)).1.

(** A class whose second field has no option list. *)
Definition cls_no_option : review_class :=
  ReviewClass ["a"; "b"] [] [] (<["opts_a" := [VInt 0; VInt 1]]> ∅) ∅.

(** A class whose second field has an empty option list. *)
Definition cls_empty_option : review_class :=
  ReviewClass ["a"; "b"] [] []
    (<["opts_a" := [VInt 0; VInt 1]]> (<["opts_b" := []]> ∅)) ∅.

(** Two models whose names differ in case only. *)
Definition crf_upper : model :=
  Model "CRF" (λ _, Some (<["a" := VInt 1]> ∅)) ∅.

Definition crf_lower : model :=
  Model "Crf" (λ _, Some (<["b" := VInt 2]> ∅)) ∅.

Definition cls_same_names : review_class :=
  ReviewClass ["a"; "b"] [crf_upper; crf_two; crf_lower] [1] ∅ ∅.


(** [cls_kinds] given two combinations of the caller's, not asked to run. *)
Definition args_listed : init_args :=
  InitArgs (Some [([VInt 0], None); ([VInt 2], Some 4)])
           VNone VNone VNone VNone None.

(** * Properties *)

(** ** The synthetic source *)

Section Product.

Lemma flat_map_singleton_id (acc : list (list pyval)) :
  flat_map (λ a, [a ++ []]) acc = acc.
Proof.
  induction acc as [|a acc IH]; simpl; [done|].
  by rewrite app_nil_r, IH.
Qed.

Lemma product_step_nested (a : list pyval) (pool : list pyval)
    (rest : list (list pyval)) :
  flat_map (λ b, map (λ t, b ++ t) rest) (map (λ y, a ++ [y]) pool)
  = map (λ t, a ++ t) (flat_map (λ x, map (λ t, x :: t) rest) pool).
Proof.
  induction pool as [|y pool IH]; simpl; [done|].
  rewrite IH, map_app, map_map. f_equal.
  apply map_ext. intros t. by rewrite <- app_assoc.
Qed.

Lemma foldl_product_step (pools : list (list pyval)) :
  ∀ acc, foldl product_step acc pools
         = flat_map (λ a, map (λ t, a ++ t) (nested_product pools)) acc.
Proof.
  induction pools as [|pool pools IH]; intros acc; simpl.
  - by rewrite flat_map_singleton_id.
  - rewrite IH. unfold product_step.
    induction acc as [|a acc IHacc]; simpl; [done|].
    by rewrite flat_map_app, IHacc, product_step_nested.
Qed.

(** [itertools.product] iterates as the nested loops do. *)
Lemma product_nested (pools : list (list pyval)) :
  product pools = nested_product pools.
Proof.
  unfold product. rewrite foldl_product_step. simpl.
  rewrite app_nil_r. apply map_id.
Qed.

Lemma nested_product_length (pools : list (list pyval)) :
  length (nested_product pools)
  = foldr (λ pool n, length pool * n) 1 pools.
Proof.
  induction pools as [|pool pools IH]; simpl; [done|].
  rewrite (flat_map_constant_length (c := length (nested_product pools))).
  - by rewrite IH.
  - intros x _. by rewrite length_map.
Qed.

Lemma count_occ_map_cons_eq (x : pyval) (t : list pyval)
    (l : list (list pyval)) :
  count_occ list_eq_dec (map (λ t, x :: t) l) (x :: t)
  = count_occ list_eq_dec l t.
Proof.
  induction l as [|u l IH]; [done|]. cbn [map].
  destruct (decide (u = t)) as [->|Hut].
  - rewrite !count_occ_cons_eq by done. by rewrite IH.
  - rewrite !count_occ_cons_neq by congruence. apply IH.
Qed.

Lemma count_occ_map_cons_ne (x y : pyval) (t : list pyval)
    (l : list (list pyval)) :
  y ≠ x → count_occ list_eq_dec (map (λ t, y :: t) l) (x :: t) = 0.
Proof.
  intros Hne. induction l as [|u l IH]; [done|]. cbn [map].
  rewrite count_occ_cons_neq by congruence. apply IH.
Qed.

Lemma count_occ_map_cons_nil (l : list (list pyval)) (y : pyval) :
  count_occ list_eq_dec (map (λ t, y :: t) l) [] = 0.
Proof.
  induction l as [|u l IH]; [done|]. cbn [map].
  rewrite count_occ_cons_neq by done. apply IH.
Qed.

Lemma nested_product_count (pools : list (list pyval)) :
  ∀ t, count_occ list_eq_dec (nested_product pools) t = multiplicity t pools.
Proof.
  induction pools as [|pool pools IH]; intros t;
    cbn [nested_product multiplicity].
  - destruct t.
    + by rewrite count_occ_cons_eq.
    + by rewrite count_occ_cons_neq.
  - destruct t as [|x t].
    + induction pool as [|y pool IHp]; simpl; [done|].
      by rewrite count_occ_app, count_occ_map_cons_nil.
    + induction pool as [|y pool IHp]; [done|].
      cbn [flat_map]. rewrite count_occ_app, IHp.
      destruct (decide (y = x)) as [->|Hne].
      * cbn [multiplicity].
        rewrite count_occ_map_cons_eq, IH, count_occ_cons_eq by done. lia.
      * cbn [multiplicity].
        rewrite count_occ_map_cons_ne, count_occ_cons_neq by done. lia.
Qed.

Lemma multiplicity_pos (t : list pyval) :
  ∀ pools, 0 < multiplicity t pools ↔ Forall2 (λ x pool, x ∈ pool) t pools.
Proof.
  induction t as [|x t IH]; intros [|pool pools]; simpl.
  - split; [constructor|lia].
  - split; [lia|inversion 1].
  - split; [lia|inversion 1].
  - rewrite Forall2_cons, <- IH, list_elem_of_In.
    rewrite (count_occ_In pyval_eq_dec). nia.
Qed.

Lemma multiplicity_NoDup (t : list pyval) :
  ∀ pools, Forall NoDup pools → (multiplicity t pools ≤ 1)%nat.
Proof.
  induction t as [|x t IH]; intros [|pool pools] Hnd; simpl; try lia.
  apply Forall_cons in Hnd as [Hp Hps].
  specialize (IH pools Hps).
  apply NoDup_ListNoDup in Hp.
  rewrite (NoDup_count_occ pyval_eq_dec) in Hp.
  specialize (Hp x). nia.
Qed.

End Product.

Section GenerateCombinations.

Lemma collect_opts_found (cls : review_class) (attrs : list string)
    (opts : list (list pyval)) :
  Forall2 (λ attr pool, opts_attrs cls !! (options_prefix +:+ attr) = Some pool)
          attrs opts →
  collect_opts cls attrs = inr opts.
Proof.
  induction 1 as [|attr pool attrs opts Hattr _ IH]; simpl; [done|].
  unfold getattr_opts. by rewrite Hattr, IH.
Qed.

Lemma generate_combinations_found (cls : review_class)
    (opts : list (list pyval)) :
  option_lists cls opts →
  generate_combinations cls
  = Gen (map (λ t, (t, None)) (nested_product opts)) None.
Proof.
  intros Hopts. unfold generate_combinations.
  by rewrite (collect_opts_found _ _ _ Hopts), product_nested.
Qed.

End GenerateCombinations.

(** C1, the claim as stated fails: with the option list [[0, 0]] for a
    single field the tuple (0,) is yielded twice, not exactly once. *)
Lemma generate_combinations_repeats :
  option_lists cls_repeated_option [[VInt 0; VInt 0]]
  ∧ yielded (generate_combinations cls_repeated_option)
    = [([VInt 0], None); ([VInt 0], None)]
  ∧ ¬ NoDup (map fst (yielded (generate_combinations cls_repeated_option))).
Proof.
  split; [|split].
  - repeat constructor.
  - reflexivity.
  - intros Hnd. apply NoDup_cons in Hnd as [Hin _].
    apply Hin. constructor.
Qed.

(** C1, amended: when every field has its option list,
    [generate_combinations] raises nothing and yields the cartesian product
    of the option lists in nested iteration order (the last field varying
    fastest), each tuple paired with [None]; a tuple is yielded once for
    each way of picking its components from the option lists, hence
    exactly once when no option list repeats a value, and the tuples
    yielded are exactly those whose components come from the respective
    lists. Options [[0,1]] and [[0,1]] give (0,0),(0,1),(1,0),(1,1). *)
Theorem generate_combinations_product (cls : review_class)
    (opts : list (list pyval)) :
  option_lists cls opts →
  let out := generate_combinations cls in
  raised out = None
  ∧ yielded out = map (λ t, (t, None)) (nested_product opts)
  ∧ length (yielded out) = foldr (λ pool n, length pool * n) 1 opts
  ∧ (∀ t, count_occ list_eq_dec (map fst (yielded out)) t = multiplicity t opts)
  ∧ (∀ t, t ∈ map fst (yielded out) ↔ Forall2 (λ x pool, x ∈ pool) t opts)
  ∧ (Forall NoDup opts → NoDup (map fst (yielded out)))
  ∧ nested_product [[VInt 0; VInt 1]; [VInt 0; VInt 1]]
    = [[VInt 0; VInt 0]; [VInt 0; VInt 1]; [VInt 1; VInt 0]; [VInt 1; VInt 1]].
Proof.
  intros Hopts out. subst out.
  rewrite (generate_combinations_found _ _ Hopts). simpl.
  match goal with
  | |- context [@map ?A ?B fst ?l] =>
      assert (Hfst : @map A B fst l = nested_product opts)
        by (rewrite map_map; apply map_id)
  end.
  rewrite Hfst.
  repeat split.
  - by rewrite length_map, nested_product_length.
  - apply nested_product_count.
  - rewrite list_elem_of_In, (count_occ_In list_eq_dec),
      nested_product_count. intros H. by apply multiplicity_pos.
  - rewrite list_elem_of_In, (count_occ_In list_eq_dec),
      nested_product_count. intros H. by apply multiplicity_pos.
  - intros Hnd. apply NoDup_ListNoDup.
    apply (NoDup_count_occ list_eq_dec). intros t.
    rewrite nested_product_count. by apply multiplicity_NoDup.
Qed.

(** The example of C1, through the theorem. *)
Lemma generate_combinations_two_bits :
  option_lists cls_two_bits [[VInt 0; VInt 1]; [VInt 0; VInt 1]]
  ∧ generate_combinations cls_two_bits
    = Gen [([VInt 0; VInt 0], None); ([VInt 0; VInt 1], None);
           ([VInt 1; VInt 0], None); ([VInt 1; VInt 1], None)] None.
Proof.
  assert (H : option_lists cls_two_bits [[VInt 0; VInt 1]; [VInt 0; VInt 1]]).
  { repeat constructor. }
  split; [exact H|].
  pose proof (generate_combinations_product cls_two_bits _ H) as (Hr & Hy & _).
  destruct (generate_combinations cls_two_bits) as [ys r].
  simpl in Hr, Hy. rewrite Hr, Hy. reflexivity.
Defined.

(** ** Probing the model instances *)

Section PyDictFacts.
Context {V : Type}.

Lemma pydict_set_fresh (d : list (string * V)) (k : string) (v : V) :
  k ∉ PyDict.keys d → PyDict.set String.eqb d k v = d ++ [(k, v)].
Proof.
  induction d as [|[k' v'] d IH]; simpl; intros Hk; [done|].
  apply not_elem_of_cons in Hk as [Hne Hk].
  destruct (String.eqb_spec k' k) as [->|_]; [done|].
  by rewrite IH.
Qed.

(** Building a dictionary from pairs with distinct keys keeps the pairs
    as they come. *)
Lemma pydict_of_pairs_fresh (ps : list (string * V)) :
  ∀ acc, NoDup (PyDict.keys (acc ++ ps)) →
         foldl (λ d p, PyDict.set String.eqb d p.1 p.2) acc ps = acc ++ ps.
Proof.
  unfold PyDict.keys.
  induction ps as [|[k v] ps IH]; intros acc Hnd; simpl.
  - by rewrite app_nil_r.
  - rewrite pydict_set_fresh.
    + rewrite IH; rewrite <- app_assoc; done.
    + rewrite map_app in Hnd. apply NoDup_app in Hnd as (_ & Hdisj & _).
      intros Hin. apply (Hdisj k Hin). simpl. left.
Qed.
End PyDictFacts.

Section GetFieldValue.
Variable cls : review_class.

(** With distinct (lower-cased) model names the instances probed are
    those of the declared models, in the declared order. *)
Lemma objects_distinct_names (subject_visit : visit) :
  NoDup (map (λ m, lower (object_name m)) (models cls)) →
  objects cls subject_visit
  = map (λ m, (lower (object_name m), get_or_blank m subject_visit))
        (models cls).
Proof.
  intros Hnd. unfold objects, models_dict, PyDict.of_pairs.
  assert (Hzip : ∀ ms : list model,
    zip (map (λ m, lower (object_name m)) ms) ms
    = map (λ m, (lower (object_name m), m)) ms).
  { induction ms as [|m ms IH]; simpl; [done|]. by rewrite IH. }
  rewrite Hzip.
  rewrite (pydict_of_pairs_fresh _ []).
  2:{ simpl. unfold PyDict.keys. rewrite map_map. simpl. exact Hnd. }
  simpl.
  set (ps := map (λ m, (lower (object_name m), m)) (models cls)).
  assert (Hnd' : NoDup (PyDict.keys ps)).
  { unfold ps, PyDict.keys. rewrite map_map. exact Hnd. }
  assert (Hgen : ∀ (acc : list (string * instance)),
    NoDup (PyDict.keys acc ++ PyDict.keys ps) →
    foldl (λ objs '(model_name, model),
             PyDict.set String.eqb objs model_name
               (get_or_blank model subject_visit)) acc ps
    = acc ++ map (λ p, (p.1, get_or_blank p.2 subject_visit)) ps).
  { clear. induction ps as [|[k m] ps IH]; intros acc Hnd; simpl.
    - by rewrite app_nil_r.
    - rewrite pydict_set_fresh.
      + rewrite IH; [by rewrite <- app_assoc|].
        unfold PyDict.keys in *. rewrite map_app. simpl.
        by rewrite <- app_assoc.
      + apply NoDup_app in Hnd as (_ & Hdisj & _).
        intros Hin. apply (Hdisj k Hin). simpl. left. }
  rewrite (Hgen []); [|exact Hnd']. simpl.
  unfold ps. by rewrite map_map.
Qed.

Lemma get_field_value_loop_first (field_name : string) (value v : pyval)
    (pre post : list instance) (inst : instance) :
  Forall (λ i : instance, i !! field_name = None) pre →
  inst !! field_name = Some v →
  get_field_value_loop field_name value (pre ++ inst :: post) = v.
Proof.
  intros Hpre Hinst.
  induction Hpre as [|i pre Hi _ IH]; simpl; unfold getattr.
  - by rewrite Hinst.
  - by rewrite Hi.
Qed.

Lemma get_field_value_loop_none (field_name : string) (value : pyval)
    (instances : list instance) :
  Forall (λ i : instance, i !! field_name = None) instances →
  get_field_value_loop field_name value instances = value.
Proof.
  induction 1 as [|i l Hi _ IH]; simpl; [done|].
  unfold getattr. by rewrite Hi.
Qed.

End GetFieldValue.

(** C9: [get_field_value] returns the attribute of the first instance,
    in the order of the instances dictionary, that has the attribute; the
    instances before it, on which the lookup fails, are skipped; when no
    instance has the attribute the result is [None], not an error. When
    the models' names are distinct the instances are those of the declared
    models, one per model and in the declared order, the unsaved instance
    standing in for a missing row. *)
Theorem get_field_value_first (cls : review_class) (field_name : string)
    (subject_visit : visit) :
  let instances := PyDict.values (objects cls subject_visit) in
  (∀ pre inst post v,
      instances = pre ++ inst :: post →
      Forall (λ i : instance, i !! field_name = None) pre →
      inst !! field_name = Some v →
      get_field_value cls field_name subject_visit = v)
  ∧ (Forall (λ i : instance, i !! field_name = None) instances →
     get_field_value cls field_name subject_visit = VNone)
  ∧ (NoDup (map (λ m, lower (object_name m)) (models cls)) →
     instances = map (λ m, get_or_blank m subject_visit) (models cls)).
Proof.
  intros instances. split; [|split].
  - intros pre inst post v Heq Hpre Hinst.
    unfold get_field_value. fold instances. rewrite Heq.
    by apply get_field_value_loop_first.
  - intros Hnone. unfold get_field_value. fold instances.
    by apply get_field_value_loop_none.
  - intros Hnd. unfold instances.
    rewrite (objects_distinct_names _ _ Hnd).
    unfold PyDict.values. by rewrite map_map.
Qed.

Lemma get_field_value_first_witness :
  get_field_value cls_visits "b" 1 = VStr "x"
  ∧ get_field_value cls_visits "c" 1 = VNone
  ∧ PyDict.values (objects cls_visits 2)
    = [blank crf_one; <["b" := VStr "x"]> ∅].
Proof.
  destruct (get_field_value_first cls_visits "b" 1) as (Hfirst & _ & _).
  destruct (get_field_value_first cls_visits "c" 1) as (_ & Hnone & _).
  destruct (get_field_value_first cls_visits "a" 2) as (_ & _ & Horder).
  split; [|split].
  - apply (Hfirst [<["a" := VInt 7]> ∅] (<["b" := VStr "x"]> ∅) []).
    + vm_compute. reflexivity.
    + constructor; [reflexivity|constructor].
    + reflexivity.
  - apply Hnone. vm_compute. repeat constructor.
  - rewrite Horder; [reflexivity|].
    apply (bool_decide_unpack _). vm_compute. exact I.
Defined.

(** ** The value list of a visit *)

Section PyEq.

Lemma py_eq_refl (x : pyval) : py_eq x x = true.
Proof.
  destruct x as [|[]|n|s]; simpl; try done.
  - apply Z.eqb_refl.
  - apply String.eqb_refl.
Qed.

Lemma py_eq_sym (x y : pyval) : py_eq x y = py_eq y x.
Proof.
  destruct x as [|a|m|s], y as [|b|n|t]; simpl; try done.
  - by destruct a, b.
  - apply Z.eqb_sym.
  - apply String.eqb_sym.
Qed.

Lemma py_eq_trans (x y z : pyval) :
  py_eq x y = true → py_eq y z = true → py_eq x z = true.
Proof.
  destruct x as [|a|m|s], y as [|b|n|t], z as [|c|p|u]; simpl; try done;
    rewrite ?Z.eqb_eq, ?String.eqb_eq;
    try (destruct a); try (destruct b); try (destruct c); simpl;
    try done; try congruence; try lia.
Qed.

(** Only the string itself is [==] to a string. *)
Lemma py_eq_str (x : pyval) (s : string) :
  py_eq x (VStr s) = true ↔ x = VStr s.
Proof.
  destruct x as [|b|n|t]; simpl; try (split; [done|discriminate]).
  rewrite String.eqb_eq. split; congruence.
Qed.

Lemma py_list_eq_refl (xs : list pyval) : py_list_eq xs xs = true.
Proof. induction xs; simpl; [done|]. by rewrite py_eq_refl, IHxs. Qed.

Lemma py_list_eq_sym (xs : list pyval) :
  ∀ ys, py_list_eq xs ys = py_list_eq ys xs.
Proof.
  induction xs as [|x xs IH]; intros [|y ys]; simpl; try done.
  by rewrite py_eq_sym, IH.
Qed.

Lemma py_list_eq_trans (xs : list pyval) :
  ∀ ys zs, py_list_eq xs ys = true → py_list_eq ys zs = true →
           py_list_eq xs zs = true.
Proof.
  induction xs as [|x xs IH]; intros [|y ys] [|z zs]; simpl; try done.
  rewrite !andb_true_iff. intros [Hxy Hxs] [Hyz Hys]. split.
  - by apply py_eq_trans with y.
  - by apply IH with ys.
Qed.

End PyEq.

Section ValuesListFrom.
Variable cls : review_class.
Variable subject_visit : visit.

Lemma py_index_str_lookup (l : list pyval) (s : string) (i : nat) :
  py_index l (VStr s) = Some i → l !! i = Some (VStr s).
Proof.
  revert i. induction l as [|y l IH]; intros i; simpl; [done|].
  destruct (py_eq y (VStr s)) eqn:E.
  - intros [= <-]. simpl. f_equal. by apply py_eq_str.
  - destruct (py_index l (VStr s)) as [j|]; simpl; [|done].
    intros [= <-]. by apply IH.
Qed.

Lemma py_index_str_found (l : list pyval) (s : string) :
  VStr s ∈ l → is_Some (py_index l (VStr s)).
Proof.
  induction l as [|y l IH]; simpl.
  - by intros ?%elem_of_nil.
  - intros [<-|Hin]%elem_of_cons.
    + by rewrite py_eq_refl.
    + destruct (py_eq y (VStr s)); [done|].
      destruct (IH Hin) as [j ->]. done.
Qed.

(** [list.index] never fails in the loop: the names still to do are
    distinct and each is still somewhere in the list. *)
Lemma values_list_loop_total (names : list string) :
  ∀ values_list,
    NoDup names →
    Forall (λ f, VStr f ∈ values_list) names →
    ∃ l, values_list_loop cls subject_visit names values_list = inr l
         ∧ length l = length values_list.
Proof.
  induction names as [|f names IH]; intros values_list Hnd Hin; simpl.
  - by exists values_list.
  - apply NoDup_cons in Hnd as [Hf Hnd].
    apply Forall_cons in Hin as [Hfin Hin].
    destruct (py_index_str_found _ _ Hfin) as [i Hi]. rewrite Hi.
    destruct (IH (<[i := get_field_value cls f subject_visit]> values_list))
      as (l & Hl & Hlen); [done| |].
    + apply Forall_forall. intros g Hg.
      rewrite Forall_forall in Hin. pose proof (Hin g Hg) as Hgl.
      apply list_elem_of_lookup in Hgl as [p Hp].
      apply list_elem_of_lookup. exists p.
      rewrite list_lookup_insert_ne; [done|].
      intros ->. apply py_index_str_lookup in Hi.
      rewrite Hi in Hp. injection Hp as ->. done.
    + exists l. split; [done|]. by rewrite Hlen, length_insert.
Qed.

End ValuesListFrom.

Section ValuesListOrder.
Variable cls : review_class.
Variable subject_visit : visit.

Lemma py_index_app_fresh (pre post : list pyval) (s : string) :
  Forall (λ v, v ≠ VStr s) pre →
  py_index (pre ++ VStr s :: post) (VStr s) = Some (length pre).
Proof.
  induction 1 as [|v pre Hv _ IH]; simpl.
  - by rewrite String.eqb_refl.
  - destruct (py_eq v (VStr s)) eqn:E.
    + by apply py_eq_str in E.
    + by rewrite IH.
Qed.

Lemma values_list_loop_ordered (names : list string) :
  ∀ done_values,
    NoDup names →
    later_names_fresh cls subject_visit names →
    Forall (λ v, Forall (λ g, v ≠ VStr g) names) done_values →
    values_list_loop cls subject_visit names
      (done_values ++ map VStr names)
    = inr (done_values
           ++ map (λ f, get_field_value cls f subject_visit) names).
Proof.
  induction names as [|f names IH]; intros done_values Hnd Hfresh Hdone;
    simpl; [done|].
  apply NoDup_cons in Hnd as [Hf Hnd]. destruct Hfresh as [Hv Hfresh].
  rewrite py_index_app_fresh.
  2:{ eapply Forall_impl; [exact Hdone|]. simpl.
      intros v Hvf. by apply Forall_cons in Hvf as [? _]. }
  rewrite insert_app_r_alt by done. rewrite Nat.sub_diag. simpl.
  rewrite (cons_middle _ done_values), app_assoc. rewrite IH; try done.
  - by rewrite <- app_assoc.
  - apply Forall_app. split.
    + eapply Forall_impl; [exact Hdone|]. simpl.
      intros v Hvf. by apply Forall_cons in Hvf as [_ ?].
    + by constructor.
Qed.

(** With distinct field names, which [namedtuple] insists on, the
    value list is always built, and it has one entry per field. *)
Lemma values_list_from_total :
  NoDup (fields cls) →
  ∃ l, values_list_from cls subject_visit = inr l
       ∧ length l = length (fields cls).
Proof.
  intros Hnd. unfold values_list_from.
  destruct (values_list_loop_total cls subject_visit (fields cls)
              (map VStr (fields cls)) Hnd) as (l & Hl & Hlen).
  - apply Forall_forall. intros f Hf. by apply list_elem_of_fmap_2.
  - exists l. split; [done|]. by rewrite Hlen, length_map.
Qed.

(** When no looked-up value is the name of a later field, the values
    come in the order of the fields. *)
Lemma values_list_from_ordered :
  NoDup (fields cls) →
  later_names_fresh cls subject_visit (fields cls) →
  values_list_from cls subject_visit
  = inr (map (λ f, get_field_value cls f subject_visit) (fields cls)).
Proof.
  intros Hnd Hfresh. unfold values_list_from.
  apply (values_list_loop_ordered (fields cls) [] Hnd Hfresh).
  constructor.
Qed.

End ValuesListOrder.

(** C6 fails on the code: the position of a field is found again with
    [list.index] in the list being filled, so a looked-up value that is
    the name of a later field takes that field's place. Here the value of
    [a] is the string ['b']: the value of [b] then overwrites position 0,
    and position 1 keeps the field name. *)
Theorem values_list_from_shadowed :
  NoDup (fields cls_shadow)
  ∧ map (λ f, get_field_value cls_shadow f 1) (fields cls_shadow)
    = [VStr "b"; VStr "x"]
  ∧ values_list_from cls_shadow 1 = inr [VStr "x"; VStr "b"].
Proof.
  split; [|split].
  - apply (bool_decide_unpack _). vm_compute. exact I.
  - vm_compute. reflexivity.
  - vm_compute. reflexivity.
Qed.

(** ** The derived-from-data source *)

Section LookupCombinations.
Variable cls : review_class.
Variable flag : pyval.

Lemma py_in_snoc (x y : list pyval) (l : list (list pyval)) :
  py_in x (l ++ [y]) = py_in x l || py_list_eq x y.
Proof. unfold py_in. rewrite existsb_app. simpl. by rewrite orb_false_r. Qed.

Lemma py_in_true (x : list pyval) (l : list (list pyval)) :
  py_in x l = true ↔ ∃ y, y ∈ l ∧ py_list_eq x y = true.
Proof.
  unfold py_in. rewrite existsb_exists.
  by setoid_rewrite list_elem_of_In.
Qed.

(** One step of the loop, by cases on what the visit gives. *)
Ltac loop_step sv vl E Ein :=
  cbn [lookup_loop];
  destruct (values_list_from cls sv) as [?|vl] eqn:E;
  [|destruct (py_in vl _) eqn:Ein; cbn [negb yielded raised]].

Section Unset.
Hypothesis Hflag : truthy flag = false.

Lemma lookup_loop_unset (subject_visits : list visit) :
  Forall (λ sv, is_Some (match values_list_from cls sv with
                         | inr l => Some l | inl _ => None end))
         subject_visits →
  let out := lookup_loop cls flag [] subject_visits in
  raised out = None
  ∧ map snd (yielded out) = map Some subject_visits
  ∧ Forall (λ c : combination,
              ∃ sv, c.2 = Some sv ∧ values_list_from cls sv = inr c.1)
           (yielded out).
Proof.
  induction 1 as [|sv rest [vl Hsv] _ IH]; [by repeat split|].
  loop_step sv vl' E Ein; [done|done|].
  rewrite Hflag. destruct IH as (Hr & Hsnd & Hall).
  cbn [negb yielded raised]. repeat split.
  - exact Hr.
  - simpl. by rewrite Hsnd.
  - constructor; [|exact Hall]. by exists sv.
Qed.
End Unset.

Section Unique.
Hypothesis Hflag : truthy flag = true.

(** Nothing the loop yields is [==] to a list already in [found]. *)
Lemma lookup_loop_not_found (subject_visits : list visit) :
  ∀ found (c : combination),
    c ∈ yielded (lookup_loop cls flag found subject_visits) →
    py_in c.1 found = false.
Proof.
  induction subject_visits as [|sv rest IH]; intros found c.
  - by intros ?%elem_of_nil.
  - loop_step sv vl E Ein.
    + by intros ?%elem_of_nil.
    + apply IH.
    + rewrite Hflag. intros [->|Hin]%elem_of_cons; [done|].
      apply IH in Hin. rewrite py_in_snoc in Hin.
      by apply orb_false_iff in Hin as [? _].
Qed.

Lemma lookup_loop_not_head (subject_visits : list visit) :
  ∀ found vl (c : combination),
    c ∈ yielded (lookup_loop cls flag (found ++ [vl]) subject_visits) →
    py_list_eq c.1 vl = false.
Proof.
  intros found vl c Hin. apply lookup_loop_not_found in Hin.
  rewrite py_in_snoc in Hin. by apply orb_false_iff in Hin as [_ ?].
Qed.

(** The lists yielded are pairwise different. *)
Lemma lookup_loop_pairwise (subject_visits : list visit) :
  ∀ found i j (c1 c2 : combination),
    i < j →
    yielded (lookup_loop cls flag found subject_visits) !! i = Some c1 →
    yielded (lookup_loop cls flag found subject_visits) !! j = Some c2 →
    py_list_eq c1.1 c2.1 = false.
Proof.
  induction subject_visits as [|sv rest IH]; intros found i j c1 c2 Hij.
  - done.
  - loop_step sv vl E Ein; [done|apply IH; done|].
    rewrite Hflag. destruct i as [|i], j as [|j]; try lia; simpl.
    + intros [= <-] Hj. simpl.
      rewrite py_list_eq_sym. eapply lookup_loop_not_head.
      eapply list_elem_of_lookup_2. exact Hj.
    + apply IH. lia.
Qed.

(** Every visit gone through has its list in [found] afterwards, up
    to [==]; so a list yielded later differs from the lists of all
    the visits before it. *)
Lemma lookup_loop_first (subject_visits : list visit) :
  ∀ found vl sv,
    (vl, Some sv) ∈ yielded (lookup_loop cls flag found subject_visits) →
    ∃ pre post,
      subject_visits = pre ++ sv :: post
      ∧ values_list_from cls sv = inr vl
      ∧ Forall (λ sv', ∀ vl', values_list_from cls sv' = inr vl' →
                              py_list_eq vl' vl = false) pre.
Proof.
  induction subject_visits as [|sv0 rest IH]; intros found vl sv.
  - by intros ?%elem_of_nil.
  - loop_step sv0 vl0 E Ein.
    + by intros ?%elem_of_nil.
    + intros Hin.
      pose proof (lookup_loop_not_found _ _ _ Hin) as Hnot.
      destruct (IH _ _ _ Hin) as (pre & post & -> & Hsv & Hpre).
      exists (sv0 :: pre), post. repeat split; [done|].
      constructor; [|done]. intros vl' Hvl'.
      rewrite E in Hvl'. injection Hvl' as <-.
      apply py_in_true in Ein as (y & Hy & Hy0).
      destruct (py_list_eq vl0 vl) eqn:E0; [|done].
      assert (py_in vl found = true); [|simpl in *; congruence].
      apply py_in_true. exists y. split; [done|].
      eapply py_list_eq_trans; [|exact Hy0]. by rewrite py_list_eq_sym.
    + rewrite Hflag. intros [[= -> ->]|Hin]%elem_of_cons.
      * exists [], rest. by repeat split.
      * pose proof (lookup_loop_not_head _ _ _ _ Hin) as Hnot.
        destruct (IH _ _ _ Hin) as (pre & post & -> & Hsv & Hpre).
        exists (sv0 :: pre), post. repeat split; [done|].
        constructor; [|done]. intros vl' Hvl'.
        rewrite E in Hvl'. injection Hvl' as <-.
        by rewrite py_list_eq_sym.
Qed.

(** Every pair yielded carries a visit. *)
Lemma lookup_loop_visit (subject_visits : list visit) :
  ∀ found (c : combination),
    c ∈ yielded (lookup_loop cls flag found subject_visits) →
    ∃ sv, c.2 = Some sv.
Proof.
  induction subject_visits as [|sv0 rest IH]; intros found c.
  - by intros ?%elem_of_nil.
  - loop_step sv0 vl0 E Ein.
    + by intros ?%elem_of_nil.
    + apply IH.
    + intros [->|Hin]%elem_of_cons; [by exists sv0|by eapply IH].
Qed.

(** When no value list fails, the loop ends normally and every
    visit's list is in [found] or among the lists yielded. *)
Lemma lookup_loop_covers (subject_visits : list visit) :
  Forall (λ sv, is_Some (match values_list_from cls sv with
                         | inr l => Some l | inl _ => None end))
         subject_visits →
  ∀ found,
    raised (lookup_loop cls flag found subject_visits) = None
    ∧ ∀ sv vl, sv ∈ subject_visits →
               values_list_from cls sv = inr vl →
               py_in vl found = true
               ∨ ∃ c, c ∈ yielded (lookup_loop cls flag found subject_visits)
                      ∧ py_list_eq vl c.1 = true.
Proof.
  induction 1 as [|sv0 rest [vl0 Hsv0] _ IH]; intros found.
  - split; [done|]. by intros sv vl ?%elem_of_nil.
  - loop_step sv0 vl0' E Ein; [done| |].
    + destruct (IH found) as [Hr Hcov]. split; [done|].
      intros sv vl [->|Hin]%elem_of_cons Hvl.
      * left. congruence.
      * exact (Hcov sv vl Hin Hvl).
    + rewrite Hflag.
      destruct (IH (found ++ [vl0'])) as [Hr Hcov]. split; [done|].
      intros sv vl [->|Hin]%elem_of_cons Hvl.
      * right. exists (vl0', Some sv0). split; [left|].
        simpl. rewrite E in Hvl. injection Hvl as ->.
        apply py_list_eq_refl.
      * destruct (Hcov sv vl Hin Hvl) as [Hfound|(c & Hc & Hvc)].
        -- rewrite py_in_snoc in Hfound.
           apply orb_true_iff in Hfound as [?|Heq]; [by left|].
           right. exists (vl0', Some sv0). split; [left|done].
        -- right. exists c. split; [by right|done].
Qed.
End Unique.

Lemma values_lists_total (subject_visits : list visit) :
  NoDup (fields cls) →
  Forall (λ sv, is_Some (match values_list_from cls sv with
                         | inr l => Some l | inl _ => None end))
         subject_visits.
Proof.
  intros Hnd. apply Forall_forall. intros sv _.
  destruct (values_list_from_total cls sv Hnd) as (l & -> & _). by eexists.
Qed.

End LookupCombinations.

(** C8: with [use_unique_combinations] unset (not truthy),
    [lookup_combinations] ends without raising and yields one pair for
    every visit of the query set, in iteration order: the visits of the
    pairs are exactly the visits of the query set, repeats included, and
    each pair holds the value list of its visit. *)
Theorem lookup_combinations_all (cls : review_class) (flag : pyval) :
  truthy flag = false →
  NoDup (fields cls) →
  let out := lookup_combinations cls flag in
  raised out = None
  ∧ map snd (yielded out) = map Some (visit_queryset cls)
  ∧ Forall (λ c : combination,
              ∃ sv, c.2 = Some sv ∧ values_list_from cls sv = inr c.1)
           (yielded out).
Proof.
  intros Hflag Hnd. apply lookup_loop_unset; [done|].
  by apply values_lists_total.
Qed.

Lemma lookup_combinations_all_witness :
  truthy VNone = false
  ∧ NoDup (fields cls_visits)
  ∧ map snd (yielded (lookup_combinations cls_visits VNone))
    = [Some 1; Some 2; Some 3; Some 1]
  ∧ map fst (yielded (lookup_combinations cls_visits VNone))
    = [[VInt 7; VStr "x"]; [VNone; VStr "x"]; [VNone; VStr "x"];
       [VInt 7; VStr "x"]].
Proof.
  assert (Hnd : NoDup (fields cls_visits)).
  { apply (bool_decide_unpack _). vm_compute. exact I. }
  split; [reflexivity|]. split; [exact Hnd|].
  pose proof (lookup_combinations_all cls_visits VNone eq_refl Hnd)
    as (_ & Hsnd & _).
  split; [exact Hsnd|]. vm_compute. reflexivity.
Defined.

(** C4: with [use_unique_combinations] set (truthy), no two pairs that
    [lookup_combinations] yields have [==] value lists; each pair holds a
    visit and the value list of that visit, and no visit before it in the
    query set has an [==] value list, so the pair carries the first visit
    that produced the list; and every visit's value list is [==] to the
    list of a pair that is yielded. *)
Theorem lookup_combinations_unique (cls : review_class) (flag : pyval) :
  truthy flag = true →
  let out := lookup_combinations cls flag in
  (∀ i j (c1 c2 : combination),
      i ≠ j → yielded out !! i = Some c1 → yielded out !! j = Some c2 →
      py_list_eq c1.1 c2.1 = false)
  ∧ (∀ c : combination, c ∈ yielded out →
       ∃ sv pre post,
         c.2 = Some sv
         ∧ visit_queryset cls = pre ++ sv :: post
         ∧ values_list_from cls sv = inr c.1
         ∧ Forall (λ sv', ∀ vl', values_list_from cls sv' = inr vl' →
                                 py_list_eq vl' c.1 = false) pre)
  ∧ (NoDup (fields cls) →
     raised out = None
     ∧ ∀ sv vl, sv ∈ visit_queryset cls →
                values_list_from cls sv = inr vl →
                ∃ c, c ∈ yielded out ∧ py_list_eq vl c.1 = true).
Proof.
  intros Hflag out. subst out. unfold lookup_combinations.
  split; [|split].
  - intros i j c1 c2 Hij H1 H2.
    destruct (Nat.lt_total i j) as [Hlt|[->|Hlt]]; [|done|].
    + by eapply lookup_loop_pairwise.
    + rewrite py_list_eq_sym. by eapply lookup_loop_pairwise.
  - intros [vl o] Hin.
    destruct (lookup_loop_visit _ _ _ _ _ Hin) as [sv Hsv].
    simpl in Hsv. subst o.
    destruct (lookup_loop_first _ _ Hflag _ _ _ _ Hin)
      as (pre & post & Heq & Hvl & Hpre).
    by exists sv, pre, post.
  - intros Hnd.
    destruct (lookup_loop_covers cls flag Hflag (visit_queryset cls)
                (values_lists_total cls _ Hnd) []) as [Hr Hcov].
    split; [done|]. intros sv vl Hin Hvl.
    by destruct (Hcov sv vl Hin Hvl) as [?|?].
Qed.

Lemma lookup_combinations_unique_witness :
  truthy (VBool true) = true
  ∧ yielded (lookup_combinations cls_visits (VBool true))
    = [([VInt 7; VStr "x"], Some 1); ([VNone; VStr "x"], Some 2)]
  ∧ py_list_eq [VInt 7; VStr "x"] [VNone; VStr "x"] = false.
Proof.
  split; [reflexivity|]. split; [vm_compute; reflexivity|].
  pose proof (lookup_combinations_unique cls_visits (VBool true) eq_refl)
    as (Hpair & _ & _).
  apply (Hpair 0 1 ([VInt 7; VStr "x"], Some 1) ([VNone; VStr "x"], Some 2));
    [lia|vm_compute; reflexivity|vm_compute; reflexivity].
Defined.

(** ** Unhandled records *)

Section UpdateExceptions.

Lemma update_exceptions_registered (fn_name : string) (record : record)
    (subject_visit : option visit) (st : state) (log : list log_entry) :
  data_exceptions st !! fn_name = Some log →
  update_exceptions fn_name record subject_visit st
  = (set_data_exceptions
       (<[fn_name := log ++ [entry_of record subject_visit]]>) st,
     if raise_exceptions st
     then inl (UnhandledRecord fn_name record) else inr tt).
Proof.
  intros Hlog. unfold update_exceptions. rewrite Hlog.
  fold (entry_of record subject_visit). simpl.
  by destruct (raise_exceptions st).
Qed.

Lemma update_exceptions_unregistered (fn_name : string) (record : record)
    (subject_visit : option visit) (st : state) :
  data_exceptions st !! fn_name = None →
  update_exceptions fn_name record subject_visit st
  = (st, inl (KeyError fn_name)).
Proof. intros Hlog. unfold update_exceptions. by rewrite Hlog. Qed.

End UpdateExceptions.

(** C7, the claim as stated fails: for a generated combination, which has
    no visit, the entry appended is the bare list of the record's values,
    not a pair. *)
Lemma update_exceptions_bare_entry :
  let '(st', r) := update_exceptions "fn_a" [VInt 0] None (st_one_fn false) in
  r = inr tt
  ∧ data_exceptions st' !! "fn_a" = Some [EntryOpts [VInt 0]]
  ∧ ∀ e, e ∈ default [] (data_exceptions st' !! "fn_a") → is_pair e = false.
Proof.
  vm_compute. split; [done|]. split; [done|].
  intros e He. apply list_elem_of_singleton in He. by subst e.
Qed.

(** C7, amended: every call of [update_exceptions] for a classifier that
    has a log appends exactly one entry to that log and touches no other
    log and no tally; the entry is the pair of the record's values and
    the visit when a visit is passed, and the bare list of the record's
    values when none is (a generated combination). *)
Theorem update_exceptions_entry (fn_name : string) (record : record)
    (subject_visit : option visit) (st : state) (log : list log_entry) :
  data_exceptions st !! fn_name = Some log →
  let st' := (update_exceptions fn_name record subject_visit st).1 in
  data_exceptions st' !! fn_name
  = Some (log ++ [entry_of record subject_visit])
  ∧ (∀ v, subject_visit = Some v →
          entry_of record subject_visit = EntryPair record v)
  ∧ (subject_visit = None → entry_of record subject_visit = EntryOpts record)
  ∧ (∀ other, other ≠ fn_name →
              data_exceptions st' !! other = data_exceptions st !! other)
  ∧ data_values st' = data_values st.
Proof.
  intros Hlog st'. subst st'.
  rewrite (update_exceptions_registered _ _ _ _ _ Hlog). simpl.
  split; [apply lookup_insert_eq|].
  split; [by intros v ->|]. split; [by intros ->|].
  split; [|done]. intros other Hne. by apply lookup_insert_ne.
Qed.

Lemma update_exceptions_entry_witness :
  data_exceptions
    (update_exceptions "fn_a" [VInt 0] (Some 5) (st_one_fn false)).1 !! "fn_a"
  = Some [EntryPair [VInt 0] 5]
  ∧ data_exceptions
      (update_exceptions "fn_a" [VInt 0] None (st_one_fn false)).1 !! "fn_a"
    = Some [EntryOpts [VInt 0]].
Proof.
  split.
  - apply (update_exceptions_entry "fn_a" [VInt 0] (Some 5)
             (st_one_fn false) []). reflexivity.
  - apply (update_exceptions_entry "fn_a" [VInt 0] None
             (st_one_fn false) []). reflexivity.
Defined.

(** C5, the claim as stated fails: with the flag set the call raises, and
    the log of the classifier has the record in it all the same. *)
Lemma update_exceptions_appends_then_raises :
  let st := st_one_fn true in
  let '(st', r) := update_exceptions "fn_a" [VInt 0] (Some 5) st in
  raise_exceptions st = true
  ∧ r = inl (UnhandledRecord "fn_a" [VInt 0])
  ∧ data_exceptions st !! "fn_a" = Some []
  ∧ data_exceptions st' !! "fn_a" = Some [EntryPair [VInt 0] 5]
  ∧ data_exceptions st' !! "fn_a" ≠ data_exceptions st !! "fn_a".
Proof. vm_compute. by repeat split. Qed.

(** C5, amended: with [raise_exceptions] set, [update_exceptions] for a
    classifier that has a log first appends the entry to that log and
    then raises: the call ends with the failure, and the log is one entry
    longer than before. *)
Theorem update_exceptions_raises_after_append (fn_name : string)
    (record : record) (subject_visit : option visit) (st : state)
    (log : list log_entry) :
  raise_exceptions st = true →
  data_exceptions st !! fn_name = Some log →
  let '(st', r) := update_exceptions fn_name record subject_visit st in
  r = inl (UnhandledRecord fn_name record)
  ∧ data_exceptions st' !! fn_name
    = Some (log ++ [entry_of record subject_visit]).
Proof.
  intros Hflag Hlog.
  rewrite (update_exceptions_registered _ _ _ _ _ Hlog), Hflag.
  split; [done|]. simpl. apply lookup_insert_eq.
Qed.

Lemma update_exceptions_raises_after_append_witness :
  let '(st', r) :=
    update_exceptions "fn_a" [VInt 0] (Some 5) (st_one_fn true) in
  r = inl (UnhandledRecord "fn_a" [VInt 0])
  ∧ data_exceptions st' !! "fn_a" = Some ([] ++ [entry_of [VInt 0] (Some 5)]).
Proof.
  apply (update_exceptions_raises_after_append "fn_a" [VInt 0] (Some 5)
           (st_one_fn true) []); reflexivity.
Defined.

(** ** The flags are settings: running does not change them *)

Section Config.

Lemma bind_run {A B} (m : M A) (k : A → M B) (st : state) :
  bind m k st = match m st with
                | (st', inl e) => (st', inl e)
                | (st', inr a) => k a st'
                end.
Proof. reflexivity. Qed.

Lemma bind_ok {A B} (m : M A) (k : A → M B) (st st' : state) (b : B) :
  bind m k st = (st', inr b) →
  ∃ a st1, m st = (st1, inr a) ∧ k a st1 = (st', inr b).
Proof.
  rewrite bind_run. destruct (m st) as [st1 [e|a]]; [done|]. by eauto.
Qed.

Lemma same_config_refl (st : state) : same_config st st.
Proof. by repeat split. Qed.

Lemma same_config_trans (st1 st2 st3 : state) :
  same_config st1 st2 → same_config st2 st3 → same_config st1 st3.
Proof.
  intros (? & ? & ?) (? & ? & ?). repeat split; congruence.
Qed.

Lemma keeps_config_ret {A} (a : A) : keeps_config (ret a).
Proof. intros st. apply same_config_refl. Qed.

Lemma keeps_config_raise {A} (e : exn) : keeps_config (@raise A e).
Proof. intros st. apply same_config_refl. Qed.

Lemma keeps_config_gets {A} (f : state → A) : keeps_config (gets f).
Proof. intros st. apply same_config_refl. Qed.

Lemma keeps_config_bind {A B} (m : M A) (k : A → M B) :
  keeps_config m → (∀ a, keeps_config (k a)) → keeps_config (bind m k).
Proof.
  intros Hm Hk st. rewrite bind_run. specialize (Hm st).
  destruct (m st) as [st1 [e|a]]; [done|].
  eapply same_config_trans; [exact Hm|apply Hk].
Qed.

Lemma keeps_config_modify (f : state → state) :
  (∀ st, same_config st (f st)) → keeps_config (modify f).
Proof. intros Hf st. apply Hf. Qed.

Lemma keeps_config_for_each {A} (l : list A) (body : A → M unit) :
  (∀ x, keeps_config (body x)) → keeps_config (for_each l body).
Proof.
  intros Hbody. induction l as [|x l IH]; simpl.
  - apply keeps_config_ret.
  - by apply keeps_config_bind.
Qed.

Lemma keeps_config_increment_counter (value : pyval) (fn_name : string) :
  keeps_config (increment_counter value fn_name).
Proof.
  intros st. unfold increment_counter.
  destruct (data_values st !! fn_name); by repeat split.
Qed.

Lemma keeps_config_update_exceptions (fn_name : string) (record : record)
    (subject_visit : option visit) :
  keeps_config (update_exceptions fn_name record subject_visit).
Proof.
  intros st. unfold update_exceptions.
  destruct (data_exceptions st !! fn_name); [|by repeat split].
  simpl. destruct (raise_exceptions st); by repeat split.
Qed.

Lemma keeps_config_call_method (cls : review_class) (fn_name : string)
    (record : record) (subject_visit : option visit) :
  keeps_config (call_method cls fn_name record subject_visit).
Proof.
  unfold call_method. destruct (methods cls !! fn_name) as [fn|].
  - destruct (fn record subject_visit) as [reports value].
    apply keeps_config_bind; [|intros; apply keeps_config_ret].
    apply keeps_config_for_each. intros r.
    apply keeps_config_update_exceptions.
  - apply keeps_config_raise.
Qed.

Lemma keeps_config_run_one (cls : review_class) (fns : list string)
    (c : combination) :
  keeps_config (run_one cls fns c).
Proof.
  destruct c as [record subject_visit]. simpl.
  apply keeps_config_for_each. intros fn_name.
  apply keeps_config_bind; [apply keeps_config_call_method|].
  intros value. apply keeps_config_increment_counter.
Qed.

Lemma keeps_config_for_gen (items : list combination) (r : option exn)
    (body : combination → M unit) :
  (∀ c, keeps_config (body c)) → keeps_config (for_gen items r body).
Proof.
  intros Hbody. induction items as [|c items IH]; simpl.
  - apply keeps_config_bind; [by apply keeps_config_modify|].
    intros _. destruct r; [apply keeps_config_raise|apply keeps_config_ret].
  - apply keeps_config_bind; [by apply keeps_config_modify|].
    intros _. by apply keeps_config_bind.
Qed.

Lemma keeps_config_run_all (cls : review_class) :
  keeps_config (run_all cls).
Proof.
  unfold run_all.
  apply keeps_config_bind; [apply keeps_config_gets|]. intros fns.
  apply keeps_config_bind.
  - apply keeps_config_for_each. intros fn_name.
    apply keeps_config_bind; [by apply keeps_config_modify|].
    intros _. by apply keeps_config_modify.
  - intros _. unfold for_combinations.
    apply keeps_config_bind; [apply keeps_config_gets|].
    intros [items|g].
    + apply keeps_config_for_each. intros c. apply keeps_config_run_one.
    + apply keeps_config_for_gen. intros c. apply keeps_config_run_one.
Qed.

Lemma is_True_spec (x : pyval) : is_True x = true ↔ x = VBool true.
Proof. destruct x as [|[]|n|s]; simpl; split; congruence. Qed.

(** The flag that [__init__] stores. *)
Lemma init_raise_exceptions (cls : review_class) (args : init_args) :
  raise_exceptions (init cls args).1 = true →
  arg_raise_exceptions args = VBool true.
Proof.
  unfold init, make_record_class.
  do 3 (rewrite bind_run; simpl). rewrite bind_run.
  destruct (bool_decide (NoDup (fields cls))); simpl;
    [|apply is_True_spec].
  do 3 (rewrite bind_run; simpl).
  match goal with
  | |- context [(if ?b then run_all cls else ret tt) ?s] =>
      assert (Hcfg : same_config s ((if b then run_all cls else ret tt) s).1)
        by (destruct b; [apply keeps_config_run_all|apply keeps_config_ret])
  end.
  destruct Hcfg as (Hr & _ & _). rewrite Hr. simpl.
  apply is_True_spec.
Qed.

End Config.

(** C10: [__init__] stores a true [raise_exceptions] only when the
    argument is the boolean [True] itself; for every other argument, the
    truthy [1] and ['yes'] among them, the stored flag is [False], and
    then [update_exceptions] for a classifier that has a log records the
    entry and returns without raising. *)
Theorem raise_exceptions_only_True (cls : review_class) (args : init_args) :
  arg_raise_exceptions args ≠ VBool true →
  let st := (init cls args).1 in
  raise_exceptions st = false
  ∧ (∀ st' fn_name record subject_visit log,
        raise_exceptions st' = raise_exceptions st →
        data_exceptions st' !! fn_name = Some log →
        (update_exceptions fn_name record subject_visit st').2 = inr tt)
  ∧ is_True (VInt 1) = false ∧ truthy (VInt 1) = true
  ∧ is_True (VStr "yes") = false ∧ truthy (VStr "yes") = true.
Proof.
  intros Harg st.
  assert (Hst : raise_exceptions st = false).
  { destruct (raise_exceptions st) eqn:E; [|done].
    by apply init_raise_exceptions in E. }
  split; [exact Hst|]. split; [|by repeat split].
  intros st' fn_name record subject_visit log Hflag Hlog.
  rewrite (update_exceptions_registered _ _ _ _ _ Hlog).
  simpl. by rewrite Hflag, Hst.
Qed.

Lemma raise_exceptions_only_True_witness :
  VInt 1 ≠ VBool true
  ∧ raise_exceptions (init cls_kinds (args_run (VInt 1))).1 = false
  ∧ (init cls_kinds (args_run (VInt 1))).2 = inr tt
  ∧ (init cls_kinds (args_run (VBool true))).2
    = inl (UnhandledRecord "fn_kind" [VInt 1]).
Proof.
  assert (Hne : VInt 1 ≠ VBool true) by discriminate.
  split; [exact Hne|].
  split; [apply (raise_exceptions_only_True cls_kinds (args_run (VInt 1)) Hne)|].
  split; vm_compute; reflexivity.
Defined.

(** ** The tally *)

Section Tally.

Lemma increment_counter_bump (value : pyval) (fn_name : string)
    (st : state) (d : list (pyval * nat)) :
  data_values st !! fn_name = Some d →
  increment_counter value fn_name st
  = (set_data_values (<[fn_name := bump d value]>) st, inr tt).
Proof. intros Hd. unfold increment_counter. by rewrite Hd. Qed.

Lemma pydict_get_set_eq (d : list (pyval * nat)) (k : pyval) (n : nat) :
  PyDict.get py_eq (PyDict.set py_eq d k n) k = Some n.
Proof.
  induction d as [|[k' n'] d IH]; simpl.
  - by rewrite py_eq_refl.
  - destruct (py_eq k' k) eqn:E; simpl; by rewrite E.
Qed.

Lemma pydict_get_set_ne (d : list (pyval * nat)) (k k2 : pyval) (n : nat) :
  py_eq k2 k = false →
  PyDict.get py_eq (PyDict.set py_eq d k n) k2 = PyDict.get py_eq d k2.
Proof.
  intros Hne. induction d as [|[k' n'] d IH]; simpl.
  - by rewrite py_eq_sym, Hne.
  - destruct (py_eq k' k) eqn:E; simpl.
    + destruct (py_eq k' k2) eqn:E2; [|done].
      rewrite py_eq_sym in E2.
      by rewrite (py_eq_trans _ _ _ E2 E) in Hne.
    + by rewrite IH.
Qed.

Lemma pydict_set_sum (d : list (pyval * nat)) (k : pyval) (n : nat) :
  sum_counts (PyDict.set py_eq d k n) + default 0 (PyDict.get py_eq d k)
  = sum_counts d + n.
Proof.
  induction d as [|[k' n'] d IH]; simpl; [lia|].
  destruct (py_eq k' k); simpl; lia.
Qed.

(** One call raises the count of the value by one, leaves the counts of
    the other values alone, and so raises the sum by one. *)
Lemma bump_spec (d : list (pyval * nat)) (value : pyval) :
  PyDict.get py_eq (bump d value) value
  = Some (default 0 (PyDict.get py_eq d value) + 1)
  ∧ (∀ other, py_eq other value = false →
              PyDict.get py_eq (bump d value) other
              = PyDict.get py_eq d other)
  ∧ sum_counts (bump d value) = sum_counts d + 1.
Proof.
  unfold bump. destruct (PyDict.get py_eq d value) as [n|] eqn:E.
  - rewrite E. simpl. split; [apply pydict_get_set_eq|].
    split; [intros other Hne; by apply pydict_get_set_ne|].
    pose proof (pydict_set_sum d value (n + 1)) as H.
    rewrite E in H. simpl in H. lia.
  - set (d1 := PyDict.set py_eq d value 0).
    assert (Hd1 : PyDict.get py_eq d1 value = Some 0)
      by apply pydict_get_set_eq.
    rewrite Hd1. simpl. split; [apply pydict_get_set_eq|].
    split.
    + intros other Hne. rewrite pydict_get_set_ne by done.
      unfold d1. by rewrite pydict_get_set_ne.
    + pose proof (pydict_set_sum d1 value 1) as H1.
      rewrite Hd1 in H1. simpl in H1.
      pose proof (pydict_set_sum d value 0) as H0.
      rewrite E in H0. simpl in H0. fold d1 in H0. lia.
Qed.

Lemma tally_set_data_exceptions f (st : state) (fn_name : string) :
  tally (set_data_exceptions f st) fn_name = tally st fn_name.
Proof. reflexivity. Qed.

Lemma tally_set_combinations c (st : state) (fn_name : string) :
  tally (set_combinations c st) fn_name = tally st fn_name.
Proof. reflexivity. Qed.

Lemma keeps_tallies_update_exceptions (fn_name : string) (record : record)
    (subject_visit : option visit) :
  keeps_tallies (update_exceptions fn_name record subject_visit).
Proof.
  intros st. unfold update_exceptions.
  destruct (data_exceptions st !! fn_name); [|done].
  simpl. by destruct (raise_exceptions st).
Qed.

Lemma keeps_tallies_reports (reports : list report) :
  keeps_tallies (for_each reports (λ r,
    update_exceptions (report_fn r) (report_record r) (report_visit r))).
Proof.
  induction reports as [|r reports IH]; intros st; simpl; [done|].
  rewrite bind_run.
  pose proof (keeps_tallies_update_exceptions
                (report_fn r) (report_record r) (report_visit r) st) as Hr.
  destruct (update_exceptions _ _ _ st) as [st1 [e|[]]]; [done|].
  rewrite IH. exact Hr.
Qed.

Lemma keeps_tallies_call_method (cls : review_class) (fn_name : string)
    (record : record) (subject_visit : option visit) :
  keeps_tallies (call_method cls fn_name record subject_visit).
Proof.
  intros st. unfold call_method.
  destruct (methods cls !! fn_name) as [fn|]; [|done].
  destruct (fn record subject_visit) as [reports value].
  rewrite bind_run. pose proof (keeps_tallies_reports reports st) as Hr.
  by destruct (for_each reports _ st) as [st1 [e|[]]].
Qed.

End Tally.

Section RunAll.
Variable cls : review_class.

Lemma tallies_raised_zero (fns : list string) (st : state) :
  tallies_raised fns 0 st st.
Proof.
  intros fn_name. destruct (decide (fn_name ∈ fns)); [|done].
  destruct (tally st fn_name); simpl; [|done]. f_equal. lia.
Qed.

Lemma tallies_raised_add (fns : list string) (a b : nat)
    (st1 st2 st3 : state) :
  tallies_raised fns a st1 st2 → tallies_raised fns b st2 st3 →
  tallies_raised fns (a + b) st1 st3.
Proof.
  intros H12 H23 fn_name. rewrite H23, H12.
  destruct (decide (fn_name ∈ fns)); [|done].
  destruct (tally st1 fn_name); simpl; [|done]. f_equal. lia.
Qed.

Lemma tallies_raised_same (fns : list string) (n : nat)
    (st1 st1' st2 : state) :
  data_values st1' = data_values st1 →
  tallies_raised fns n st1' st2 → tallies_raised fns n st1 st2.
Proof.
  intros Heq H fn_name. rewrite H. unfold tally. by rewrite Heq.
Qed.

(** Calling one classifier and counting what it returns. *)
Lemma count_one_ok (fn_name : string) (record : record)
    (subject_visit : option visit) (st st' : state) :
  (let* value := call_method cls fn_name record subject_visit in
   increment_counter value fn_name) st = (st', inr tt) →
  tallies_raised [fn_name] 1 st st'.
Proof.
  intros (value & st1 & Hcall & Hinc)%bind_ok.
  pose proof (keeps_tallies_call_method cls fn_name record subject_visit st)
    as Hkeep. rewrite Hcall in Hkeep. simpl in Hkeep.
  destruct (data_values st1 !! fn_name) as [d|] eqn:Hd.
  2:{ unfold increment_counter in Hinc. by rewrite Hd in Hinc. }
  rewrite (increment_counter_bump _ _ _ _ Hd) in Hinc.
  injection Hinc as <-.
  intros other. unfold tally. simpl. rewrite <- Hkeep.
  destruct (decide (other ∈ [fn_name])) as [Hin|Hin].
  - apply list_elem_of_singleton in Hin as ->.
    rewrite lookup_insert_eq, Hd. simpl. f_equal. apply bump_spec.
  - rewrite lookup_insert_ne; [done|].
    intros ->. apply Hin. by apply list_elem_of_singleton.
Qed.

Lemma run_one_ok (fns : list string) (c : combination) (st st' : state) :
  NoDup fns →
  run_one cls fns c st = (st', inr tt) →
  tallies_raised fns 1 st st'.
Proof.
  destruct c as [record subject_visit]. unfold run_one.
  revert st. induction fns as [|f fns IH]; intros st Hnd; simpl.
  - intros [= <-]. intros fn_name.
    destruct (decide (fn_name ∈ [])) as [Hin|]; [|done].
    by apply elem_of_nil in Hin.
  - apply NoDup_cons in Hnd as [Hf Hnd].
    intros ([] & st1 & Hone & Hrest)%bind_ok.
    apply count_one_ok in Hone. apply IH in Hrest; [|done].
    intros fn_name. rewrite Hrest, Hone.
    destruct (decide (fn_name = f)) as [->|Hne].
    + rewrite (decide_True (P := f ∈ [f])) by by apply list_elem_of_singleton.
      rewrite (decide_False (P := f ∈ fns)) by done.
      by rewrite (decide_True (P := f ∈ f :: fns)) by left.
    + rewrite (decide_False (P := fn_name ∈ [f]))
        by (by intros ?%list_elem_of_singleton).
      destruct (decide (fn_name ∈ fns)) as [Hin|Hin].
      * by rewrite (decide_True (P := fn_name ∈ f :: fns)) by by right.
      * rewrite (decide_False (P := fn_name ∈ f :: fns)); [done|].
        by intros [?|?]%elem_of_cons.
Qed.

Lemma for_each_run_one_ok (fns : list string) (items : list combination) :
  NoDup fns →
  ∀ st st',
    for_each items (run_one cls fns) st = (st', inr tt) →
    tallies_raised fns (length items) st st'.
Proof.
  intros Hnd. induction items as [|c items IH]; intros st st'; simpl.
  - intros [= <-]. apply tallies_raised_zero.
  - intros ([] & st1 & Hone & Hrest)%bind_ok.
    apply (tallies_raised_add _ 1 (length items) _ st1).
    + by eapply run_one_ok.
    + by apply IH.
Qed.

Lemma for_gen_run_one_ok (fns : list string) (items : list combination)
    (r : option exn) :
  NoDup fns →
  ∀ st st',
    for_gen items r (run_one cls fns) st = (st', inr tt) →
    tallies_raised fns (length items) st st'.
Proof.
  intros Hnd. induction items as [|c items IH]; intros st st'; simpl.
  - rewrite bind_run. simpl. destruct r; [done|].
    intros [= <-]. intros fn_name. rewrite tally_set_combinations.
    apply tallies_raised_zero.
  - rewrite bind_run. simpl.
    intros ([] & st1 & Hone & Hrest)%bind_ok.
    apply (tallies_raised_add _ 1 (length items) _ st1).
    + apply run_one_ok in Hone; [|done].
      eapply tallies_raised_same; [|exact Hone]. done.
    + by apply IH.
Qed.

Lemma reset_tables_ok (fns : list string) :
  ∀ st, ∃ st0,
    reset_tables fns st = (st0, inr tt)
    ∧ combinations st0 = combinations st
    ∧ raise_exceptions st0 = raise_exceptions st
    ∧ fn_names st0 = fn_names st
    ∧ (∀ fn_name, fn_name ∈ fns →
         data_values st0 !! fn_name = Some []
         ∧ data_exceptions st0 !! fn_name = Some [])
    ∧ (∀ fn_name, fn_name ∉ fns →
         data_values st0 !! fn_name = data_values st !! fn_name
         ∧ data_exceptions st0 !! fn_name = data_exceptions st !! fn_name).
Proof.
  unfold reset_tables.
  induction fns as [|f fns IH]; intros st; simpl.
  - exists st. split; [done|]. split; [done|]. split; [done|].
    split; [done|]. split; [|done]. by intros fn_name ?%elem_of_nil.
  - rewrite bind_run. simpl.
    destruct (IH (set_data_exceptions (<[f := []]>)
                    (set_data_values (<[f := []]>) st)))
      as (st0 & Hst0 & Hc & Hr & Hn & Hin & Hout).
    exists st0. split; [done|]. split; [done|]. split; [done|].
    split; [done|]. split.
    + intros fn_name Hfn.
      destruct (decide (fn_name ∈ fns)) as [Hfns|Hfns]; [by apply Hin|].
      apply elem_of_cons in Hfn as [->|?]; [|done].
      destruct (Hout f Hfns) as [-> ->]. simpl.
      by rewrite !lookup_insert_eq.
    + intros fn_name [Hne Hfn]%not_elem_of_cons.
      destruct (Hout fn_name Hfn) as [-> ->]. simpl.
      by rewrite !lookup_insert_ne.
Qed.

Lemma run_all_unfold (st : state) :
  run_all cls st
  = (reset_tables (fn_names st);;
     for_combinations (run_one cls (fn_names st))) st.
Proof. reflexivity. Qed.

(** The names [__init__] stores are distinct. *)
Lemma init_fn_names_NoDup (args : init_args) :
  NoDup (init_fn_names cls args).
Proof.
  unfold init_fn_names.
  destruct (arg_fn_name args) as [[|c s]|].
  2:{ apply NoDup_singleton. }
  all: unfold dir_fn_names; apply NoDup_filter;
    rewrite merge_sort_Permutation; apply NoDup_fst_map_to_list.
Qed.

End RunAll.

(** C2: when [run_all] returns (nothing raised), every classifier of the
    run has a tally, and the counts in it add up to the number of
    combinations; the classifier names are distinct, as [__init__] makes
    them. Each call of [increment_counter] for a classifier that has a
    tally sets the count of the value to one more than it was (one, for a
    value not yet counted), leaves the counts of the other values as they
    were, and raises the sum of the counts by one. *)
Theorem run_all_tally (cls : review_class) (st st' : state) :
  NoDup (fn_names st) →
  run_all cls st = (st', inr tt) →
  (∀ fn_name, fn_name ∈ fn_names st →
     ∃ d, data_values st' !! fn_name = Some d
          ∧ sum_counts d = length (combinations_of st))
  ∧ (∀ value fn_name st0 d,
       data_values st0 !! fn_name = Some d →
       ∃ d',
         increment_counter value fn_name st0
         = (set_data_values (<[fn_name := d']>) st0, inr tt)
         ∧ PyDict.get py_eq d' value
           = Some (default 0 (PyDict.get py_eq d value) + 1)
         ∧ (∀ other, py_eq other value = false →
                     PyDict.get py_eq d' other = PyDict.get py_eq d other)
         ∧ sum_counts d' = sum_counts d + 1).
Proof.
  intros Hnd Hrun. split.
  - rewrite run_all_unfold in Hrun.
    apply bind_ok in Hrun as ([] & st0 & Hreset & Hloop).
    destruct (reset_tables_ok (fn_names st) st)
      as (st0' & Hreset' & Hcomb & _ & _ & Hin & _).
    rewrite Hreset in Hreset'. injection Hreset' as <-.
    assert (Hraised : tallies_raised (fn_names st)
                        (length (combinations_of st)) st0 st').
    { unfold for_combinations in Hloop. rewrite bind_run in Hloop.
      simpl in Hloop. unfold combinations_of. rewrite <- Hcomb.
      destruct (combinations st0) as [items|[items r]].
      - by apply (for_each_run_one_ok cls).
      - by apply (for_gen_run_one_ok cls _ _ r). }
    intros fn_name Hfn. specialize (Hraised fn_name).
    rewrite (decide_True (P := fn_name ∈ fn_names st)) in Hraised by done.
    unfold tally in Hraised. destruct (Hin fn_name Hfn) as [Hd0 _].
    rewrite Hd0 in Hraised. simpl in Hraised.
    destruct (data_values st' !! fn_name) as [d|]; [|done].
    exists d. split; [done|]. simpl in Hraised. by injection Hraised.
  - intros value fn_name st0 d Hd. exists (bump d value).
    split; [by apply increment_counter_bump|]. apply bump_spec.
Qed.

Lemma run_all_tally_witness :
  NoDup (fn_names (st_kinds VNone))
  ∧ (run_all cls_kinds (st_kinds VNone)).2 = inr tt
  ∧ length (combinations_of (st_kinds VNone)) = 4
  ∧ ∃ d, data_values (run_all cls_kinds (st_kinds VNone)).1 !! "fn_kind"
         = Some d
         ∧ sum_counts d = 4.
Proof.
  assert (Hnd : NoDup (fn_names (st_kinds VNone))).
  { apply (bool_decide_unpack _). vm_compute. exact I. }
  assert (Hrun : run_all cls_kinds (st_kinds VNone)
                 = ((run_all cls_kinds (st_kinds VNone)).1, inr tt)).
  { vm_compute. reflexivity. }
  split; [exact Hnd|]. split; [vm_compute; reflexivity|].
  split; [vm_compute; reflexivity|].
  destruct (run_all_tally cls_kinds _ _ Hnd Hrun) as [Hsum _].
  destruct (Hsum "fn_kind") as (d & Hd & Hlen).
  - vm_compute. left.
  - exists d. split; [exact Hd|]. rewrite Hlen. vm_compute. reflexivity.
Defined.

(** ** Stopping at the first unhandled record *)

Section Abort.
Variable cls : review_class.

Lemma registered_raised (fns fns' : list string) (n : nat)
    (st st' : state) :
  tallies_raised fns' n st st' → registered fns st → registered fns st'.
Proof.
  intros Hr Hreg f Hf. specialize (Hr f). specialize (Hreg f Hf).
  unfold tally in Hr. destruct Hreg as [d Hd]. rewrite Hd in Hr.
  destruct (data_values st' !! f); [done|].
  by destruct (decide (f ∈ fns')).
Qed.

Lemma for_each_app {A} (l1 l2 : list A) (body : A → M unit) (st : state) :
  for_each (l1 ++ l2) body st
  = (for_each l1 body;; for_each l2 body) st.
Proof.
  revert st. induction l1 as [|x l1 IH]; intros st; simpl; [done|].
  rewrite !bind_run. destruct (body x st) as [st1 [e|[]]]; [done|].
  by rewrite IH.
Qed.

Lemma call_method_found (fn_name : string) (record : record)
    (subject_visit : option visit) (fn : classifier)
    (reports : list report) (value : pyval) (st : state) :
  methods cls !! fn_name = Some fn →
  fn record subject_visit = (reports, value) →
  call_method cls fn_name record subject_visit st
  = (for_each reports (λ r,
       update_exceptions (report_fn r) (report_record r) (report_visit r));;
     ret value) st.
Proof. intros Hfn Hcall. unfold call_method. by rewrite Hfn, Hcall. Qed.

(** The inner loop of [run_all] over classifiers that stay quiet. *)
Lemma count_quiet (record : record) (subject_visit : option visit)
    (fns : list string) :
  ∀ st,
    quiet cls fns (record, subject_visit) →
    registered fns st →
    ∃ st',
      run_one cls fns (record, subject_visit) st = (st', inr tt)
      ∧ frame st st'.
Proof.
  unfold run_one.
  induction fns as [|f fns IH]; intros st Hquiet Hreg; simpl.
  - by exists st.
  - destruct (Hquiet f) as (fn & value & Hfn & Hcall); [left|].
    destruct (Hreg f) as [d Hd]; [left|].
    rewrite bind_run, bind_run.
    rewrite (call_method_found _ _ _ _ _ _ _ Hfn Hcall). simpl.
    rewrite (increment_counter_bump _ _ _ _ Hd).
    destruct (IH (set_data_values (<[f := bump d value]>) st))
      as (st' & Hrun & Hframe).
    + intros g Hg. apply Hquiet. by right.
    + intros g Hg. simpl. apply lookup_insert_is_Some'.
      right. apply Hreg. by right.
    + exists st'. split; [done|]. exact Hframe.
Qed.

Lemma run_one_quiet (fns : list string) (c : combination) (st : state) :
  NoDup fns → quiet cls fns c → registered fns st →
  ∃ st',
    run_one cls fns c st = (st', inr tt)
    ∧ frame st st'
    ∧ tallies_raised fns 1 st st'.
Proof.
  intros Hnd Hquiet Hreg. destruct c as [record subject_visit].
  destruct (count_quiet record subject_visit fns st Hquiet Hreg)
    as (st' & Hrun & Hframe).
  exists st'. split; [done|]. split; [done|]. by eapply run_one_ok.
Qed.

(** The classifier [fn_name], reached after the quiet [fns1], reports
    [r] first: with the flag set the loop ends there. *)
Lemma run_one_aborts (fns1 fns2 : list string) (fn_name : string)
    (c : combination) (st : state) (fn : classifier) (r : report)
    (rs : list report) (value : pyval) (log : list log_entry) :
  NoDup fns1 →
  quiet cls fns1 c →
  registered fns1 st →
  methods cls !! fn_name = Some fn →
  fn c.1 c.2 = (r :: rs, value) →
  data_exceptions st !! report_fn r = Some log →
  raise_exceptions st = true →
  ∃ st',
    run_one cls (fns1 ++ fn_name :: fns2) c st
    = (st', inl (UnhandledRecord (report_fn r) (report_record r)))
    ∧ combinations st' = combinations st
    ∧ tallies_raised fns1 1 st st'
    ∧ data_exceptions st' !! report_fn r
      = Some (log ++ [entry_of (report_record r) (report_visit r)]).
Proof.
  intros Hnd Hquiet Hreg Hfn Hcall Hlog Hflag.
  destruct (run_one_quiet fns1 c st Hnd Hquiet Hreg)
    as (st1 & Hrun & (Hexc & Hcomb & Hraise) & Htally).
  destruct c as [record subject_visit]. unfold run_one in *.
  rewrite for_each_app, bind_run, Hrun. simpl.
  rewrite bind_run, bind_run.
  rewrite (call_method_found _ _ _ _ _ _ _ Hfn Hcall). simpl.
  rewrite bind_run, bind_run.
  rewrite <- Hexc in Hlog.
  rewrite (update_exceptions_registered _ _ _ _ _ Hlog), Hraise, Hflag.
  eexists. split; [reflexivity|]. simpl.
  split; [done|]. split; [|apply lookup_insert_eq].
  intros f. rewrite tally_set_data_exceptions. apply Htally.
Qed.

(** The outer loop over combinations that stay quiet, for the caller's
    list and for a generator. *)
Lemma for_each_quiet (fns : list string) (pre rest : list combination) :
  NoDup fns →
  Forall (quiet cls fns) pre →
  ∀ st, registered fns st →
    ∃ st1,
      for_each (pre ++ rest) (run_one cls fns) st
      = for_each rest (run_one cls fns) st1
      ∧ frame st st1
      ∧ tallies_raised fns (length pre) st st1.
Proof.
  intros Hnd. induction 1 as [|c pre Hc _ IH]; intros st Hreg; simpl.
  - exists st. split; [done|]. split; [done|]. apply tallies_raised_zero.
  - destruct (run_one_quiet fns c st Hnd Hc Hreg)
      as (st1 & Hrun & (He1 & Hc1 & Hr1) & Ht1).
    destruct (IH st1) as (st2 & Hloop & (He2 & Hc2 & Hr2) & Ht2).
    { by eapply registered_raised. }
    exists st2. rewrite bind_run, Hrun. split; [done|].
    split; [repeat split; congruence|].
    by apply (tallies_raised_add _ 1 (length pre) _ st1).
Qed.

Lemma for_gen_quiet (fns : list string) (pre rest : list combination)
    (e : option exn) :
  NoDup fns →
  Forall (quiet cls fns) pre →
  ∀ st, registered fns st →
    ∃ st1,
      for_gen (pre ++ rest) e (run_one cls fns) st
      = for_gen rest e (run_one cls fns) st1
      ∧ data_exceptions st1 = data_exceptions st
      ∧ raise_exceptions st1 = raise_exceptions st
      ∧ tallies_raised fns (length pre) st st1.
Proof.
  intros Hnd. induction 1 as [|c pre Hc _ IH]; intros st Hreg; simpl.
  - exists st. split; [done|]. split; [done|]. split; [done|].
    apply tallies_raised_zero.
  - set (st0 := set_combinations (CombGen (Gen (pre ++ rest) e)) st).
    destruct (run_one_quiet fns c st0 Hnd Hc)
      as (st1 & Hrun & (He1 & Hc1 & Hr1) & Ht1); [exact Hreg|].
    destruct (IH st1) as (st2 & Hloop & He2 & Hr2 & Ht2).
    { eapply registered_raised; [exact Ht1|exact Hreg]. }
    exists st2. rewrite bind_run. simpl. fold st0.
    rewrite bind_run, Hrun. split; [done|].
    split; [by rewrite He2, He1|]. split; [by rewrite Hr2, Hr1|].
    apply (tallies_raised_add _ 1 (length pre) _ st1); [|done].
    eapply tallies_raised_same; [|exact Ht1]. done.
Qed.

End Abort.

(** C3: with [raise_exceptions] set, [run_all] stops at the first
    combination that a classifier reports. The combinations [pre] before
    it are reported by no classifier; at [c] the classifiers [fns1] that
    come first report nothing and [fn_name] calls [update_exceptions],
    first with the arguments [r], for a classifier of the run. Then
    [run_all] raises the failure that carries the classifier name and the
    record's values given in that call; what has been counted by then is
    [pre] for every classifier and [c] for the classifiers of [fns1]
    only; the log of the reported classifier holds that one entry; and
    when the combinations come from a generator, the combinations [post]
    after [c] are still in it, not taken. *)
Theorem run_all_aborts (cls : review_class) (st : state)
    (pre post : list combination) (c : combination)
    (fns1 fns2 : list string) (fn_name : string) (fn : classifier)
    (r : report) (rs : list report) (value : pyval) :
  raise_exceptions st = true →
  NoDup (fn_names st) →
  combinations_of st = pre ++ c :: post →
  Forall (quiet cls (fn_names st)) pre →
  fn_names st = fns1 ++ fn_name :: fns2 →
  quiet cls fns1 c →
  methods cls !! fn_name = Some fn →
  fn c.1 c.2 = (r :: rs, value) →
  report_fn r ∈ fn_names st →
  ∃ st',
    run_all cls st
    = (st', inl (UnhandledRecord (report_fn r) (report_record r)))
    ∧ (∀ f, f ∈ fns1 → tally st' f = Some (length pre + 1))
    ∧ (∀ f, f ∈ fn_name :: fns2 → tally st' f = Some (length pre))
    ∧ data_exceptions st' !! report_fn r
      = Some [entry_of (report_record r) (report_visit r)]
    ∧ (∀ g, combinations st = CombGen g →
            combinations st' = CombGen (Gen post (raised g))).
Proof.
  intros Hflag Hnd Hcombs Hpre Hfns Hquiet Hfn Hcall Hr.
  rewrite run_all_unfold, bind_run.
  destruct (reset_tables_ok (fn_names st) st)
    as (st0 & -> & Hcomb0 & Hraise0 & _ & Hin & _).
  assert (Hreg0 : registered (fn_names st) st0).
  { intros f Hf. destruct (Hin f Hf) as [-> _]. by eexists. }
  assert (Hnd1 : NoDup fns1).
  { rewrite Hfns in Hnd. by apply NoDup_app in Hnd as (? & _ & _). }
  assert (Hsub : ∀ f, f ∈ fns1 → f ∈ fn_names st).
  { intros f Hf. rewrite Hfns. apply elem_of_app. by left. }
  assert (Hdisj : ∀ f, f ∈ fn_name :: fns2 → f ∉ fns1).
  { intros f Hf Hf1. rewrite Hfns in Hnd.
    apply NoDup_app in Hnd as (_ & Hd & _). by apply (Hd f). }
  assert (Hsub2 : ∀ f, f ∈ fn_name :: fns2 → f ∈ fn_names st).
  { intros f Hf. rewrite Hfns. apply elem_of_app. by right. }
  (* what is known once the loop has gone through [pre] and stopped at [c] *)
  assert (Hend : ∀ st1 st',
    tallies_raised (fn_names st) (length pre) st0 st1 →
    tallies_raised fns1 1 st1 st' →
    (∀ f, f ∈ fns1 → tally st' f = Some (length pre + 1))
    ∧ (∀ f, f ∈ fn_name :: fns2 → tally st' f = Some (length pre))).
  { intros st1 st' Ht1 Ht'. split; intros f Hf; rewrite Ht', Ht1.
    - rewrite (decide_True (P := f ∈ fns1)) by done.
      rewrite (decide_True (P := f ∈ fn_names st)) by auto.
      unfold tally. destruct (Hin f (Hsub f Hf)) as [-> _]. done.
    - rewrite (decide_False (P := f ∈ fns1)) by auto.
      rewrite (decide_True (P := f ∈ fn_names st)) by auto.
      unfold tally. destruct (Hin f (Hsub2 f Hf)) as [-> _]. done. }
  unfold for_combinations. rewrite bind_run. simpl.
  unfold combinations_of in Hcombs. rewrite <- Hcomb0 in *.
  destruct (combinations st0) as [items|[items e]]; simpl in Hcombs;
    subst items.
  - destruct (for_each_quiet cls (fn_names st) pre (c :: post) Hnd Hpre
                st0 Hreg0) as (st1 & -> & (He1 & Hc1 & Hr1) & Ht1).
    destruct (run_one_aborts cls fns1 fns2 fn_name c st1 fn r rs value [])
      as (st' & Hrun & Hc' & Ht' & Hlog); try done.
    + intros f Hf. eapply registered_raised; [exact Ht1|exact Hreg0|auto].
    + rewrite He1. by destruct (Hin _ Hr) as [_ ->].
    + by rewrite Hr1, Hraise0.
    + exists st'. simpl. rewrite <- Hfns in Hrun. rewrite bind_run, Hrun.
      split; [done|]. destruct (Hend st1 st' Ht1 Ht') as [? ?].
      split; [done|]. split; [done|]. split; [done|].
      intros g Hg. discriminate Hg.
  - cbn [yielded raised].
    destruct (for_gen_quiet cls (fn_names st) pre (c :: post) e Hnd Hpre
                st0 Hreg0) as (st1 & -> & He1 & Hr1 & Ht1).
    set (st2 := set_combinations (CombGen (Gen post e)) st1).
    destruct (run_one_aborts cls fns1 fns2 fn_name c st2 fn r rs value [])
      as (st' & Hrun & Hc' & Ht' & Hlog); try done.
    + intros f Hf. simpl.
      eapply registered_raised; [exact Ht1|exact Hreg0|auto].
    + simpl. rewrite He1. by destruct (Hin _ Hr) as [_ ->].
    + simpl. by rewrite Hr1, Hraise0.
    + exists st'. simpl. rewrite <- Hfns in Hrun.
      rewrite bind_run. simpl. fold st2. rewrite bind_run, Hrun.
      split; [done|]. destruct (Hend st1 st' Ht1) as [? ?].
      { eapply tallies_raised_same; [|exact Ht']. done. }
      split; [done|]. split; [done|]. split; [done|].
      intros g Hg. rewrite Hc'. simpl. by injection Hg as <-.
Qed.

Lemma run_all_aborts_witness :
  ∃ st',
    run_all cls_kinds (st_kinds (VBool true))
    = (st', inl (UnhandledRecord "fn_kind" [VInt 1]))
    ∧ tally st' "fn_kind" = Some 1
    ∧ tally st' "fn_seen" = Some 1
    ∧ combinations st'
      = CombGen (Gen [([VInt 2], None); ([VInt 3], None)] None).
Proof.
  assert (Hnames : fn_names (st_kinds (VBool true)) = ["fn_kind"; "fn_seen"]).
  { vm_compute. reflexivity. }
  destruct (run_all_aborts cls_kinds (st_kinds (VBool true))
              [([VInt 0], None)] [([VInt 2], None); ([VInt 3], None)]
              ([VInt 1], None) [] ["fn_seen"] "fn_kind" fn_kind
              (Report "fn_kind" [VInt 1] None) [] VNone)
    as (st' & Hrun & _ & Htally & _ & Hgen).
  - vm_compute. reflexivity.
  - rewrite Hnames. apply (bool_decide_unpack _). vm_compute. exact I.
  - vm_compute. reflexivity.
  - rewrite Hnames. constructor; [|constructor].
    intros f Hf.
    apply elem_of_cons in Hf as [->|Hf].
    { exists fn_kind, (VStr "zero"). split; reflexivity. }
    apply elem_of_cons in Hf as [->|Hf].
    { exists fn_seen, (VBool true). split; reflexivity. }
    apply elem_of_nil in Hf. destruct Hf.
  - exact Hnames.
  - intros f Hf. apply elem_of_nil in Hf. destruct Hf.
  - reflexivity.
  - reflexivity.
  - rewrite Hnames. left.
  - exists st'. split; [exact Hrun|].
    split; [apply Htally; left|].
    split; [apply Htally; right; left|].
    apply (Hgen (Gen [([VInt 0], None); ([VInt 1], None);
                      ([VInt 2], None); ([VInt 3], None)] None)).
    vm_compute. reflexivity.
Defined.

(** * Further properties of the code *)

(** ** The value lists and the records built from them *)

Lemma values_list_loop_length (cls : review_class) (subject_visit : visit)
    (names : list string) :
  ∀ values_list l,
    values_list_loop cls subject_visit names values_list = inr l →
    length l = length values_list.
Proof.
  induction names as [|f names IH]; intros values_list l; simpl.
  - by intros [= <-].
  - destruct (py_index values_list (VStr f)) as [i|]; [|done].
    intros Hl. apply IH in Hl. by rewrite Hl, length_insert.
Qed.

Lemma nested_product_elem (pools : list (list pyval)) (t : list pyval) :
  t ∈ nested_product pools ↔ Forall2 (λ x pool, x ∈ pool) t pools.
Proof.
  rewrite list_elem_of_In, (count_occ_In list_eq_dec), nested_product_count.
  apply multiplicity_pos.
Qed.

Lemma collect_opts_length (cls : review_class) (attrs : list string) :
  ∀ opts, collect_opts cls attrs = inr opts → length opts = length attrs.
Proof.
  induction attrs as [|attr attrs IH]; intros opts; simpl.
  - by intros [= <-].
  - destruct (getattr_opts cls _) as [e|l]; [done|].
    destruct (collect_opts cls attrs) as [e|ls]; [done|].
    intros [= <-]. simpl. f_equal. by apply IH.
Qed.

Lemma lookup_loop_yields (cls : review_class) (flag : pyval)
    (subject_visits : list visit) :
  ∀ found (c : combination),
    c ∈ yielded (lookup_loop cls flag found subject_visits) →
    ∃ sv, sv ∈ subject_visits ∧ c.2 = Some sv
          ∧ values_list_from cls sv = inr c.1.
Proof.
  induction subject_visits as [|sv rest IH]; intros found c; cbn [lookup_loop].
  - by intros ?%elem_of_nil.
  - destruct (values_list_from cls sv) as [e|vl] eqn:E.
    + by intros ?%elem_of_nil.
    + destruct (py_in vl found); cbn [negb yielded].
      * intros (sv' & ? & ? & ?)%IH. exists sv'. split; [by right|done].
      * intros [->|Hin]%elem_of_cons.
        -- exists sv. split; [left|done].
        -- apply IH in Hin as (sv' & ? & ? & ?).
           exists sv'. split; [by right|done].
Qed.

(** X1: with distinct field names, which [namedtuple] insists on,
    [values_list_from] never raises ([list.index] always finds the field
    name it looks for) and returns one value per field. *)
Theorem values_list_from_never_raises (cls : review_class)
    (subject_visit : visit) :
  NoDup (fields cls) →
  ∃ l, values_list_from cls subject_visit = inr l
       ∧ length l = length (fields cls).
Proof. apply values_list_from_total. Qed.

Lemma values_list_from_never_raises_witness :
  NoDup (fields cls_shadow)
  ∧ ∃ l, values_list_from cls_shadow 1 = inr l ∧ length l = 2.
Proof.
  assert (Hnd : NoDup (fields cls_shadow)).
  { apply (bool_decide_unpack _). vm_compute. exact I. }
  split; [exact Hnd|].
  exact (values_list_from_never_raises cls_shadow 1 Hnd).
Defined.

(** X2: when no value looked up for a field is the name of a field that
    comes later in the record, [values_list_from] returns the values in
    the order of the fields: position i holds the value looked up for
    field i. *)
Theorem values_list_from_in_field_order (cls : review_class)
    (subject_visit : visit) :
  NoDup (fields cls) →
  later_names_fresh cls subject_visit (fields cls) →
  values_list_from cls subject_visit
  = inr (map (λ f, get_field_value cls f subject_visit) (fields cls)).
Proof. apply values_list_from_ordered. Qed.

Lemma values_list_from_in_field_order_witness :
  NoDup (fields cls_visits)
  ∧ later_names_fresh cls_visits 1 (fields cls_visits)
  ∧ values_list_from cls_visits 1 = inr [VInt 7; VStr "x"].
Proof.
  assert (Hnd : NoDup (fields cls_visits)).
  { apply (bool_decide_unpack _). vm_compute. exact I. }
  assert (Hfresh : later_names_fresh cls_visits 1 (fields cls_visits)).
  { simpl. split; [|split; [constructor|exact I]].
    constructor; [|constructor]. vm_compute. discriminate. }
  split; [exact Hnd|]. split; [exact Hfresh|].
  exact (values_list_from_in_field_order cls_visits 1 Hnd Hfresh).
Defined.

(** X3: every combination that either source yields has exactly one value
    per field of the record, so that building the [Record] from it never
    fails; a generated combination has no visit, and a looked-up one
    carries a visit of the query set together with the value list of that
    visit. *)
Theorem combinations_fit_record (cls : review_class) :
  (∀ c : combination, c ∈ yielded (generate_combinations cls) →
     length c.1 = length (fields cls) ∧ c.2 = None)
  ∧ (∀ flag (c : combination), c ∈ yielded (lookup_combinations cls flag) →
       length c.1 = length (fields cls)
       ∧ ∃ sv, sv ∈ visit_queryset cls ∧ c.2 = Some sv
               ∧ values_list_from cls sv = inr c.1).
Proof.
  split.
  - intros c. unfold generate_combinations.
    destruct (collect_opts cls (fields cls)) as [e|opts] eqn:E; simpl.
    + by intros ?%elem_of_nil.
    + rewrite product_nested.
      intros (t & -> & Ht)%list_elem_of_fmap. simpl. split; [|done].
      apply nested_product_elem, Forall2_length in Ht.
      by rewrite Ht, (collect_opts_length _ _ _ E).
  - intros flag c Hc. unfold lookup_combinations in Hc.
    apply lookup_loop_yields in Hc as (sv & Hsv & Hc2 & Hvl).
    split; [|by exists sv].
    unfold values_list_from in Hvl. apply values_list_loop_length in Hvl.
    by rewrite Hvl, length_map.
Qed.

Lemma combinations_fit_record_witness :
  length ([VInt 7; VStr "x"] : list pyval) = length (fields cls_visits)
  ∧ length ([VInt 0; VInt 1] : list pyval) = length (fields cls_two_bits).
Proof.
  destruct (combinations_fit_record cls_visits) as [_ Hlook].
  destruct (combinations_fit_record cls_two_bits) as [Hgen _].
  split.
  - destruct (Hlook VNone ([VInt 7; VStr "x"], Some 1)) as [Hlen _];
      [vm_compute; left|exact Hlen].
  - destruct (Hgen ([VInt 0; VInt 1], None)) as [Hlen _];
      [vm_compute; right; left|exact Hlen].
Defined.

(** ** The synthetic source at its edges *)

Lemma collect_opts_missing (cls : review_class) (pre post : list string)
    (f : string) :
  Forall (λ a, is_Some (opts_attrs cls !! (options_prefix +:+ a))) pre →
  opts_attrs cls !! (options_prefix +:+ f) = None →
  collect_opts cls (pre ++ f :: post)
  = inl (AttributeError (options_prefix +:+ f)).
Proof.
  intros Hpre Hf. induction Hpre as [|a pre [l Ha] _ IH]; simpl.
  - unfold getattr_opts. by rewrite Hf.
  - unfold getattr_opts at 1. by rewrite Ha, IH.
Qed.

Lemma nested_product_empty_pool (pools : list (list pyval)) :
  [] ∈ pools → nested_product pools = [].
Proof.
  induction pools as [|pool pools IH]; simpl.
  - by intros ?%elem_of_nil.
  - intros [<-|Hin]%elem_of_cons; [done|].
    rewrite (IH Hin). simpl. by induction pool.
Qed.

(** X4: when the class lacks the option list of a field,
    [generate_combinations] yields nothing and raises the [AttributeError]
    for the first such field, by the attribute name [opts_<field>]. *)
Theorem generate_combinations_missing_option (cls : review_class)
    (pre post : list string) (f : string) :
  fields cls = pre ++ f :: post →
  Forall (λ a, is_Some (opts_attrs cls !! (options_prefix +:+ a))) pre →
  opts_attrs cls !! (options_prefix +:+ f) = None →
  generate_combinations cls
  = Gen [] (Some (AttributeError (options_prefix +:+ f))).
Proof.
  intros Hfields Hpre Hf. unfold generate_combinations.
  by rewrite Hfields, (collect_opts_missing _ _ _ _ Hpre Hf).
Qed.

Lemma generate_combinations_missing_option_witness :
  generate_combinations cls_no_option
  = Gen [] (Some (AttributeError "opts_b")).
Proof.
  apply (generate_combinations_missing_option cls_no_option ["a"] [] "b").
  - reflexivity.
  - constructor; [|constructor]. exists [VInt 0; VInt 1]. reflexivity.
  - reflexivity.
Defined.

(** X5: a field with an empty option list leaves nothing to generate:
    [generate_combinations] yields no combination at all, whatever the
    other option lists are; a record without fields yields exactly one
    combination, the empty record. *)
Theorem generate_combinations_edges (cls : review_class)
    (opts : list (list pyval)) :
  (option_lists cls opts → [] ∈ opts →
   generate_combinations cls = Gen [] None)
  ∧ (fields cls = [] → generate_combinations cls = Gen [([], None)] None).
Proof.
  split.
  - intros Hopts Hempty.
    rewrite (generate_combinations_found _ _ Hopts).
    by rewrite (nested_product_empty_pool _ Hempty).
  - intros Hfields. unfold generate_combinations. by rewrite Hfields.
Qed.

Lemma generate_combinations_edges_witness :
  option_lists cls_empty_option [[VInt 0; VInt 1]; []]
  ∧ generate_combinations cls_empty_option = Gen [] None.
Proof.
  assert (H : option_lists cls_empty_option [[VInt 0; VInt 1]; []]).
  { repeat constructor. }
  split; [exact H|].
  destruct (generate_combinations_edges cls_empty_option
              [[VInt 0; VInt 1]; []]) as [Hempty _].
  apply Hempty; [exact H|]. right. left.
Defined.

(** ** The models dictionary *)

Section PyDictStrings.
Context {V : Type}.

Lemma pydict_get_set (d : list (string * V)) (k k2 : string) (v : V) :
  PyDict.get String.eqb (PyDict.set String.eqb d k v) k2
  = if decide (k = k2) then Some v else PyDict.get String.eqb d k2.
Proof.
  induction d as [|[k' v'] d IH]; simpl.
  - destruct (String.eqb_spec k k2), (decide (k = k2)); done.
  - destruct (String.eqb_spec k' k) as [->|Hne]; simpl.
    + destruct (String.eqb_spec k k2), (decide (k = k2)); done.
    + rewrite IH. destruct (String.eqb_spec k' k2) as [->|]; [|done].
      by rewrite decide_False by done.
Qed.

Lemma pydict_keys_set (d : list (string * V)) (k : string) (v : V) :
  PyDict.keys (PyDict.set String.eqb d k v)
  = if decide (k ∈ PyDict.keys d) then PyDict.keys d
    else PyDict.keys d ++ [k].
Proof.
  unfold PyDict.keys. induction d as [|[k' v'] d IH]; simpl; [done|].
  destruct (String.eqb_spec k' k) as [->|Hne]; simpl.
  - rewrite decide_True; [done|left].
  - rewrite IH. destruct (decide (k ∈ map fst d)) as [Hin|Hin].
    + rewrite decide_True; [done|by right].
    + rewrite decide_False; [done|].
      intros [?|?]%elem_of_cons; [congruence|done].
Qed.

Lemma pydict_set_NoDup (d : list (string * V)) (k : string) (v : V) :
  NoDup (PyDict.keys d) → NoDup (PyDict.keys (PyDict.set String.eqb d k v)).
Proof.
  intros Hnd. rewrite pydict_keys_set.
  destruct (decide (k ∈ PyDict.keys d)); [done|].
  apply NoDup_app. split; [done|]. split; [|apply NoDup_singleton].
  intros x Hx ->%list_elem_of_singleton. done.
Qed.

Lemma pydict_fold_set (ps : list (string * V)) :
  ∀ acc,
    NoDup (PyDict.keys acc) →
    let d := foldl (λ d p, PyDict.set String.eqb d p.1 p.2) acc ps in
    NoDup (PyDict.keys d)
    ∧ (∀ k, k ∈ PyDict.keys d ↔ k ∈ PyDict.keys acc ∨ k ∈ ps.*1)
    ∧ (∀ k, k ∉ ps.*1 →
            PyDict.get String.eqb d k = PyDict.get String.eqb acc k)
    ∧ (∀ pre post k v, ps = pre ++ (k, v) :: post → k ∉ post.*1 →
                       PyDict.get String.eqb d k = Some v).
Proof.
  induction ps as [|[k0 v0] ps IH]; intros acc Hnd; simpl.
  - split; [done|]. split; [|split; [done|]].
    + intros k. split; [by left|]. intros [?|?%elem_of_nil]; done.
    + intros [|? ?] ? ? ? Heq; discriminate Heq.
  - destruct (IH (PyDict.set String.eqb acc k0 v0))
      as (Hnd' & Hkeys & Hout & Hlast); [by apply pydict_set_NoDup|].
    split; [done|]. split; [|split].
    + intros k. rewrite Hkeys, pydict_keys_set, elem_of_cons.
      destruct (decide (k0 ∈ PyDict.keys acc)) as [Hin|Hin].
      * split; [intros [?|?]; auto|].
        intros [?|[->|?]]; auto.
      * rewrite elem_of_app, list_elem_of_singleton.
        split; [intros [[?|?]|?]; auto|].
        intros [?|[?|?]]; auto.
    + intros k [Hne Hk]%not_elem_of_cons.
      rewrite (Hout k Hk), pydict_get_set. by rewrite decide_False.
    + intros [|p pre] post k v Heq Hk; simplify_eq/=.
      * rewrite (Hout k Hk), pydict_get_set. by rewrite decide_True.
      * by apply (Hlast pre post).
Qed.

End PyDictStrings.

Lemma objects_of_models_dict (cls : review_class) (subject_visit : visit) :
  objects cls subject_visit
  = map (λ p, (p.1, get_or_blank p.2 subject_visit)) (models_dict cls).
Proof.
  unfold objects.
  assert (Hnd : NoDup (PyDict.keys (models_dict cls))).
  { unfold models_dict, PyDict.of_pairs.
    apply (pydict_fold_set _ []). constructor. }
  revert Hnd. generalize (models_dict cls). intros ps Hnd.
  assert (Hgen : ∀ (acc : list (string * instance)),
    NoDup (PyDict.keys acc ++ PyDict.keys ps) →
    foldl (λ objs '(model_name, model),
             PyDict.set String.eqb objs model_name
               (get_or_blank model subject_visit)) acc ps
    = acc ++ map (λ p, (p.1, get_or_blank p.2 subject_visit)) ps).
  { clear. induction ps as [|[k m] ps IH]; intros acc Hnd; simpl.
    - by rewrite app_nil_r.
    - rewrite pydict_set_fresh.
      + rewrite IH; [by rewrite <- app_assoc|].
        unfold PyDict.keys in *. rewrite map_app. simpl.
        by rewrite <- app_assoc.
      + apply NoDup_app in Hnd as (_ & Hdisj & _).
        intros Hin. apply (Hdisj k Hin). simpl. left. }
  by rewrite (Hgen []).
Qed.

(** X6: the dictionary that [__init__] makes of the models has one entry
    per distinct lower-cased model name; a name shared by several models
    stands for the last of them in the declared list; and [objects] holds
    exactly one instance per entry, in the order of the entries: the row
    of the entry's model for the visit, or the model's unsaved
    instance. *)
Theorem models_dict_last_wins (cls : review_class) :
  NoDup (PyDict.keys (models_dict cls))
  ∧ (∀ name, name ∈ PyDict.keys (models_dict cls)
             ↔ ∃ m, m ∈ models cls ∧ lower (object_name m) = name)
  ∧ (∀ pre m post,
       models cls = pre ++ m :: post →
       Forall (λ m', lower (object_name m') ≠ lower (object_name m)) post →
       PyDict.get String.eqb (models_dict cls) (lower (object_name m))
       = Some m)
  ∧ (∀ subject_visit,
       objects cls subject_visit
       = map (λ p, (p.1, get_or_blank p.2 subject_visit)) (models_dict cls)).
Proof.
  assert (Hzip : ∀ ms : list model,
    zip (map (λ m, lower (object_name m)) ms) ms
    = map (λ m, (lower (object_name m), m)) ms).
  { induction ms as [|m ms IH]; simpl; [done|]. by rewrite IH. }
  unfold models_dict, PyDict.of_pairs. rewrite Hzip.
  destruct (pydict_fold_set
              (map (λ m, (lower (object_name m), m)) (models cls)) [])
    as (Hnd & Hkeys & _ & Hlast); [constructor|].
  split; [exact Hnd|]. split; [|split].
  - intros name. rewrite Hkeys. split.
    + intros [?%elem_of_nil|Hin]; [done|].
      apply list_elem_of_fmap in Hin as ([n m] & -> & Hin).
      apply list_elem_of_fmap in Hin as (m' & [= -> ->] & Hin). by exists m'.
    + intros (m & Hm & <-). right.
      apply list_elem_of_fmap. exists (lower (object_name m), m).
      split; [done|]. apply list_elem_of_fmap. by exists m.
  - intros pre m post Hmodels Hpost.
    apply (Hlast (map (λ m, (lower (object_name m), m)) pre)
                 (map (λ m, (lower (object_name m), m)) post)).
    + by rewrite Hmodels, map_app.
    + intros Hin. apply list_elem_of_fmap in Hin as ([n m'] & Hn & Hin).
      apply list_elem_of_fmap in Hin as (m'' & [= -> ->] & Hin).
      rewrite Forall_forall in Hpost. by apply (Hpost m'' Hin).
  - intros subject_visit.
    pose proof (objects_of_models_dict cls subject_visit) as Hobj.
    unfold models_dict, PyDict.of_pairs in Hobj. by rewrite Hzip in Hobj.
Qed.

Lemma models_dict_last_wins_witness :
  PyDict.get String.eqb (models_dict cls_same_names) "crf" = Some crf_lower
  ∧ PyDict.keys (models_dict cls_same_names) = ["crf"; "crftwo"].
Proof.
  destruct (models_dict_last_wins cls_same_names) as (_ & _ & Hlast & _).
  split; [|vm_compute; reflexivity].
  apply (Hlast [crf_upper; crf_two] crf_lower []).
  - reflexivity.
  - constructor.
Defined.

(** ** The derived-from-data source, with and without the flag *)

Lemma lookup_loop_sublist (cls : review_class) (flag flag' : pyval)
    (subject_visits : list visit) :
  truthy flag' = false →
  ∀ found,
    yielded (lookup_loop cls flag found subject_visits)
    `sublist_of` yielded (lookup_loop cls flag' [] subject_visits).
Proof.
  intros Hoff.
  induction subject_visits as [|sv rest IH]; intros found; cbn [lookup_loop].
  - constructor.
  - destruct (values_list_from cls sv) as [e|vl]; [constructor|].
    rewrite Hoff. cbn [py_in existsb negb yielded].
    destruct (py_in vl found); cbn [negb yielded].
    + apply sublist_cons, IH.
    + apply sublist_skip, IH.
Qed.

(** X7: whatever the flag, the pairs that [lookup_combinations] yields
    are a sublist of the pairs it yields with the flag unset: the flag
    only drops pairs, it neither adds nor reorders nor changes any. *)
Theorem lookup_combinations_sublist (cls : review_class)
    (flag flag' : pyval) :
  truthy flag' = false →
  yielded (lookup_combinations cls flag)
  `sublist_of` yielded (lookup_combinations cls flag').
Proof. intros Hoff. by apply lookup_loop_sublist. Qed.

Lemma lookup_combinations_sublist_witness :
  truthy VNone = false
  ∧ yielded (lookup_combinations cls_visits (VInt 1))
    `sublist_of` yielded (lookup_combinations cls_visits VNone).
Proof.
  split; [reflexivity|].
  exact (lookup_combinations_sublist cls_visits (VInt 1) VNone eq_refl).
Defined.

(** ** The instance before and after a run *)

(** X8: [__init__] leaves both tables empty unless it is asked to run:
    on such an instance every call of [update_exceptions] and of
    [increment_counter] raises [KeyError] for the classifier name and
    changes nothing, whatever the flags are. The tables get their entries
    in [run_all] only. *)
Theorem init_leaves_tables_empty (cls : review_class) (args : init_args) :
  truthy (arg_run_all args) = false →
  let st := (init cls args).1 in
  data_values st = ∅
  ∧ data_exceptions st = ∅
  ∧ (∀ fn_name record subject_visit,
       update_exceptions fn_name record subject_visit st
       = (st, inl (KeyError fn_name)))
  ∧ (∀ value fn_name,
       increment_counter value fn_name st = (st, inl (KeyError fn_name))).
Proof.
  intros Hrun st.
  assert (Htables : data_values st = ∅ ∧ data_exceptions st = ∅).
  { subst st. unfold init, make_record_class. rewrite Hrun.
    unfold bind, modify. simpl.
    by destruct (bool_decide (NoDup (fields cls))). }
  destruct Htables as [Hv He]. split; [done|]. split; [done|]. split.
  - intros fn_name record subject_visit.
    apply update_exceptions_unregistered. by rewrite He.
  - intros value fn_name. unfold increment_counter. by rewrite Hv.
Qed.

Lemma init_leaves_tables_empty_witness :
  truthy (arg_run_all no_args) = false
  ∧ (update_exceptions "fn_kind" [VInt 1] None (init cls_kinds no_args).1).2
    = inl (KeyError "fn_kind").
Proof.
  split; [reflexivity|].
  destruct (init_leaves_tables_empty cls_kinds no_args eq_refl)
    as (_ & _ & Hupd & _).
  rewrite Hupd. reflexivity.
Defined.

(** X9: [run_all] never changes the settings of the instance, whether it
    returns or raises: [raise_exceptions], [use_unique_combinations] and
    the list of classifier names are afterwards what they were. *)
Theorem run_all_keeps_settings (cls : review_class) (st : state) :
  let st' := (run_all cls st).1 in
  raise_exceptions st' = raise_exceptions st
  ∧ fn_names st' = fn_names st
  ∧ use_unique_combinations st' = use_unique_combinations st.
Proof. apply keeps_config_run_all. Qed.



(** ** What a completed run leaves in the tables *)

Section Steps.
Variable cls : review_class.

Lemma same_tables_refl (st : state) : same_tables st st.
Proof. by split. Qed.

Lemma for_each_steps (body : combination → M unit)
    (items : list combination) :
  ∀ st st', for_each items body st = (st', inr tt) →
            run_steps body items st st'.
Proof.
  induction items as [|c items IH]; intros st st'; simpl.
  - intros [= <-]. constructor. apply same_tables_refl.
  - intros ([] & st1 & Hone & Hrest)%bind_ok.
    eapply run_steps_cons; [apply same_tables_refl|exact Hone|by apply IH].
Qed.

Lemma for_gen_steps (body : combination → M unit)
    (items : list combination) (r : option exn) :
  ∀ st st', for_gen items r body st = (st', inr tt) →
            run_steps body items st st'
            ∧ r = None
            ∧ combinations st' = CombGen (Gen [] None).
Proof.
  induction items as [|c items IH]; intros st st'; simpl.
  - rewrite bind_run. simpl. destruct r; [done|].
    intros [= <-]. split; [|done]. constructor. by split.
  - rewrite bind_run. simpl.
    intros ([] & st1 & Hone & Hrest)%bind_ok.
    destruct (IH _ _ Hrest) as (Hsteps & Hr & Hcomb).
    split; [|done].
    eapply run_steps_cons; [|exact Hone|exact Hsteps]. by split.
Qed.

(** A run that returns went through the reset tables step by step. *)
Lemma run_all_steps (st st' : state) :
  run_all cls st = (st', inr tt) →
  ∃ st0,
    run_steps (run_one cls (fn_names st)) (combinations_of st) st0 st'
    ∧ (∀ fn_name, fn_name ∈ fn_names st →
         data_values st0 !! fn_name = Some []
         ∧ data_exceptions st0 !! fn_name = Some []).
Proof.
  rewrite run_all_unfold.
  intros ([] & st0 & Hreset & Hloop)%bind_ok.
  destruct (reset_tables_ok (fn_names st) st)
    as (st0' & Hreset' & Hcomb & _ & _ & Hin & _).
  rewrite Hreset in Hreset'. injection Hreset' as <-.
  exists st0. split; [|exact Hin].
  unfold for_combinations in Hloop. rewrite bind_run in Hloop.
  simpl in Hloop. unfold combinations_of. rewrite <- Hcomb.
  destruct (combinations st0) as [items|[items r]].
  - by apply for_each_steps.
  - by apply for_gen_steps in Hloop as [? _].
Qed.

(** *** The tallies *)

Lemma py_eq_congr (a b k : pyval) :
  py_eq a b = true → py_eq k a = py_eq k b.
Proof.
  intros Hab. destruct (py_eq k a) eqn:Ea, (py_eq k b) eqn:Eb; try done.
  - by rewrite (py_eq_trans _ _ _ Ea Hab) in Eb.
  - rewrite py_eq_sym in Hab. by rewrite (py_eq_trans _ _ _ Eb Hab) in Ea.
Qed.

Lemma pydict_get_py_eq (d : list (pyval * nat)) (a b : pyval) :
  py_eq a b = true → PyDict.get py_eq d a = PyDict.get py_eq d b.
Proof.
  intros Hab. induction d as [|[k n] d IH]; simpl; [done|].
  by rewrite (py_eq_congr _ _ k Hab), IH.
Qed.

Lemma bump_get (d : list (pyval * nat)) (w v : pyval) :
  PyDict.get py_eq (bump d w) v
  = if py_eq w v then Some (default 0 (PyDict.get py_eq d v) + 1)
    else PyDict.get py_eq d v.
Proof.
  destruct (bump_spec d w) as (Hw & Hother & _).
  destruct (py_eq w v) eqn:E.
  - rewrite py_eq_sym in E.
    by rewrite (pydict_get_py_eq _ _ _ E), Hw, (pydict_get_py_eq d _ _ E).
  - apply Hother. by rewrite py_eq_sym.
Qed.

Lemma foldl_bump_get (outs : list pyval) (v : pyval) :
  ∀ d,
    PyDict.get py_eq (foldl bump d outs) v
    = if (count_value v outs =? 0)%nat then PyDict.get py_eq d v
      else Some (default 0 (PyDict.get py_eq d v) + count_value v outs).
Proof.
  induction outs as [|w outs IH]; intros d; simpl; [done|].
  rewrite IH, bump_get. destruct (py_eq w v); simpl.
  - destruct (count_value v outs =? 0)%nat eqn:E.
    + apply Nat.eqb_eq in E. rewrite E. f_equal; lia.
    + f_equal; lia.
  - done.
Qed.

Lemma call_method_ok (fn_name : string) (record : record)
    (subject_visit : option visit) (st st' : state) (value : pyval) :
  call_method cls fn_name record subject_visit st = (st', inr value) →
  classify cls fn_name (record, subject_visit) = Some value
  ∧ for_each (reports_of cls fn_name (record, subject_visit))
      (λ r, update_exceptions (report_fn r) (report_record r) (report_visit r))
      st = (st', inr tt).
Proof.
  unfold call_method, classify, reports_of. simpl.
  destruct (methods cls !! fn_name) as [fn|]; [|done]. simpl.
  destruct (fn record subject_visit) as [reports w]. simpl.
  intros ([] & st1 & Hreports & [= <- <-])%bind_ok. done.
Qed.

Lemma count_one_value (fn_name : string) (c : combination)
    (st st' : state) :
  (let* value := call_method cls fn_name c.1 c.2 in
   increment_counter value fn_name) st = (st', inr tt) →
  ∃ w d, classify cls fn_name c = Some w
         ∧ data_values st !! fn_name = Some d
         ∧ data_values st' = <[fn_name := bump d w]> (data_values st).
Proof.
  destruct c as [record subject_visit]. simpl.
  intros (value & st1 & Hcall & Hinc)%bind_ok.
  pose proof (keeps_tallies_call_method cls fn_name record subject_visit st)
    as Hkeep. rewrite Hcall in Hkeep. simpl in Hkeep.
  apply call_method_ok in Hcall as [Hw _].
  destruct (data_values st1 !! fn_name) as [d|] eqn:Hd.
  2:{ unfold increment_counter in Hinc. by rewrite Hd in Hinc. }
  rewrite (increment_counter_bump _ _ _ _ Hd) in Hinc.
  injection Hinc as <-. exists value, d. simpl.
  by rewrite <- Hkeep.
Qed.

(** The tally of each classifier after one combination. *)
Lemma run_one_values (fns : list string) (c : combination) :
  NoDup fns →
  ∀ st st',
    run_one cls fns c st = (st', inr tt) →
    ∀ fn_name,
      (fn_name ∈ fns →
       ∃ w d, classify cls fn_name c = Some w
              ∧ data_values st !! fn_name = Some d
              ∧ data_values st' !! fn_name = Some (bump d w))
      ∧ (fn_name ∉ fns →
         data_values st' !! fn_name = data_values st !! fn_name).
Proof.
  destruct c as [record subject_visit]. unfold run_one.
  induction fns as [|f fns IH]; intros Hnd st st'; simpl.
  - intros [= <-] fn_name. split; [by intros ?%elem_of_nil|done].
  - apply NoDup_cons in Hnd as [Hf Hnd].
    intros ([] & st1 & Hone & Hrest)%bind_ok fn_name.
    apply (count_one_value f (record, subject_visit)) in Hone
      as (w & d & Hw & Hd & Hst1).
    destruct (IH Hnd _ _ Hrest fn_name) as [Hin Hout].
    destruct (IH Hnd _ _ Hrest f) as [_ Hf'].
    split.
    + intros [->|Hfn]%elem_of_cons.
      * exists w, d. split; [done|]. split; [done|].
        by rewrite (Hf' Hf), Hst1, lookup_insert_eq.
      * destruct (Hin Hfn) as (w' & d' & Hw' & Hd' & Hst').
        exists w', d'. split; [done|]. split; [|done].
        rewrite Hst1, lookup_insert_ne in Hd'; [done|].
        by intros ->.
    + intros [Hne Hfn]%not_elem_of_cons.
      by rewrite (Hout Hfn), Hst1, lookup_insert_ne.
Qed.

(** The tally of a classifier after the combinations: the values it
    returned, counted one after the other. *)
Lemma run_steps_values (fns : list string) (items : list combination)
    (st st' : state) :
  NoDup fns →
  run_steps (run_one cls fns) items st st' →
  ∀ fn_name, fn_name ∈ fns →
    ∀ d, data_values st !! fn_name = Some d →
      ∃ outs,
        Forall2 (λ c w, classify cls fn_name c = Some w) items outs
        ∧ data_values st' !! fn_name = Some (foldl bump d outs).
Proof.
  intros Hnd Hsteps fn_name Hfn.
  induction Hsteps as [st st' [Hv _]|c items st st0 st1 st' [Hv _] Hone _ IH];
    intros d Hd.
  - exists []. split; [constructor|]. by rewrite Hv.
  - destruct (run_one_values fns c Hnd _ _ Hone fn_name) as [Hin _].
    destruct (Hin Hfn) as (w & d0 & Hw & Hd0 & Hd1).
    rewrite Hv, Hd in Hd0. injection Hd0 as <-.
    destruct (IH _ Hd1) as (outs & Houts & Hfinal).
    exists (w :: outs). split; [by constructor|done].
Qed.

(** *** The logs *)

Lemma entries_for_app (fn_name : string) (rs1 rs2 : list report) :
  entries_for fn_name (rs1 ++ rs2)
  = entries_for fn_name rs1 ++ entries_for fn_name rs2.
Proof. unfold entries_for. by rewrite filter_app, map_app. Qed.

Lemma update_exceptions_ok (fn_name : string) (record : record)
    (subject_visit : option visit) (st st' : state) :
  update_exceptions fn_name record subject_visit st = (st', inr tt) →
  ∃ log, data_exceptions st !! fn_name = Some log
         ∧ raise_exceptions st = false
         ∧ st' = set_data_exceptions
                   (<[fn_name := log ++ [entry_of record subject_visit]]>) st.
Proof.
  destruct (data_exceptions st !! fn_name) as [log|] eqn:Hlog.
  - rewrite (update_exceptions_registered _ _ _ _ _ Hlog).
    destruct (raise_exceptions st); [done|].
    intros [= <-]. by exists log.
  - by rewrite (update_exceptions_unregistered _ _ _ _ Hlog).
Qed.

Lemma reports_logged (reports : list report) :
  ∀ st st',
    for_each reports (λ r,
      update_exceptions (report_fn r) (report_record r) (report_visit r)) st
    = (st', inr tt) →
    ∀ fn_name,
      data_exceptions st' !! fn_name
      = (λ log, log ++ entries_for fn_name reports)
        <$> data_exceptions st !! fn_name.
Proof.
  induction reports as [|r reports IH]; intros st st'; simpl.
  - intros [= <-] fn_name. unfold entries_for. simpl.
    destruct (data_exceptions st !! fn_name); simpl; [|done].
    by rewrite app_nil_r.
  - intros ([] & st1 & Hone & Hrest)%bind_ok fn_name.
    apply update_exceptions_ok in Hone as (log & Hlog & _ & ->).
    rewrite (IH _ _ Hrest fn_name). simpl. unfold entries_for.
    rewrite filter_cons.
    destruct (decide (report_fn r = fn_name)) as [<-|Hne].
    + rewrite lookup_insert_eq, Hlog. simpl. by rewrite <- app_assoc.
    + by rewrite lookup_insert_ne.
Qed.

Lemma run_one_logged (fns : list string) (c : combination) :
  ∀ st st',
    run_one cls fns c st = (st', inr tt) →
    ∀ fn_name,
      data_exceptions st' !! fn_name
      = (λ log, log ++ entries_for fn_name
                         (flat_map (λ f, reports_of cls f c) fns))
        <$> data_exceptions st !! fn_name.
Proof.
  destruct c as [record subject_visit]. unfold run_one.
  induction fns as [|f fns IH]; intros st st'; simpl.
  - intros [= <-] fn_name. unfold entries_for. simpl.
    destruct (data_exceptions st !! fn_name); simpl; [|done].
    by rewrite app_nil_r.
  - intros ([] & st1 & Hone & Hrest)%bind_ok fn_name.
    apply bind_ok in Hone as (value & st2 & Hcall & Hinc).
    apply call_method_ok in Hcall as [_ Hreports].
    pose proof (reports_logged _ _ _ Hreports) as Hlogged.
    assert (He : data_exceptions st1 = data_exceptions st2).
    { unfold increment_counter in Hinc.
      destruct (data_values st2 !! f); [|done]. by injection Hinc as <-. }
    rewrite (IH _ _ Hrest fn_name), He, (Hlogged fn_name), entries_for_app.
    destruct (data_exceptions st !! fn_name); simpl; [|done].
    by rewrite <- app_assoc.
Qed.

Lemma run_steps_logged (fns : list string) (items : list combination)
    (st st' : state) :
  run_steps (run_one cls fns) items st st' →
  ∀ fn_name,
    data_exceptions st' !! fn_name
    = (λ log, log ++ entries_for fn_name (all_reports cls fns items))
      <$> data_exceptions st !! fn_name.
Proof.
  induction 1 as [st st' [_ He]|c items st st0 st1 st' [_ He] Hone _ IH];
    intros fn_name.
  - rewrite He. unfold entries_for. simpl.
    destruct (data_exceptions st !! fn_name); simpl; [|done].
    by rewrite app_nil_r.
  - rewrite IH, (run_one_logged _ _ _ _ Hone fn_name), He.
    unfold all_reports. simpl. rewrite entries_for_app.
    destruct (data_exceptions st !! fn_name); simpl; [|done].
    by rewrite <- app_assoc.
Qed.

End Steps.

Lemma run_steps_logged_after_reset (cls : review_class) (st st' : state) :
  run_all cls st = (st', inr tt) →
  ∀ fn_name, fn_name ∈ fn_names st →
    data_exceptions st' !! fn_name
    = Some (entries_for fn_name
              (all_reports cls (fn_names st) (combinations_of st))).
Proof.
  intros Hrun fn_name Hfn.
  apply run_all_steps in Hrun as (st0 & Hsteps & Hreset).
  destruct (Hreset fn_name Hfn) as [_ He0].
  by rewrite (run_steps_logged cls _ _ _ _ Hsteps fn_name), He0.
Qed.

(** X11: when [run_all] returns, the tally of each classifier counts the
    values the classifier returned for the combinations: a value has an
    entry exactly when the classifier returned a value [==] to it for some
    combination, and its count is the number of such combinations. The
    classifier names are distinct, as [__init__] makes them. *)
Theorem run_all_counts_values (cls : review_class) (st st' : state) :
  NoDup (fn_names st) →
  run_all cls st = (st', inr tt) →
  ∀ fn_name, fn_name ∈ fn_names st →
    ∃ outs d,
      Forall2 (λ c w, classify cls fn_name c = Some w)
              (combinations_of st) outs
      ∧ data_values st' !! fn_name = Some d
      ∧ ∀ v, PyDict.get py_eq d v
             = if (count_value v outs =? 0)%nat then None
               else Some (count_value v outs).
Proof.
  intros Hnd Hrun fn_name Hfn.
  apply run_all_steps in Hrun as (st0 & Hsteps & Hreset).
  destruct (Hreset fn_name Hfn) as [Hd0 _].
  destruct (run_steps_values cls _ _ _ _ Hnd Hsteps fn_name Hfn [] Hd0)
    as (outs & Houts & Hfinal).
  exists outs, (foldl bump [] outs). split; [done|]. split; [done|].
  intros v. by rewrite foldl_bump_get.
Qed.

Lemma run_all_counts_values_witness :
  ∃ d, data_values (run_all cls_kinds (st_kinds VNone)).1 !! "fn_kind" = Some d
       ∧ PyDict.get py_eq d (VStr "many") = Some 2
       ∧ PyDict.get py_eq d (VStr "none") = None.
Proof.
  assert (Hnd : NoDup (fn_names (st_kinds VNone))).
  { apply (bool_decide_unpack _). vm_compute. exact I. }
  assert (Hrun : run_all cls_kinds (st_kinds VNone)
                 = ((run_all cls_kinds (st_kinds VNone)).1, inr tt)).
  { vm_compute. reflexivity. }
  assert (Hfn : "fn_kind" ∈ fn_names (st_kinds VNone)).
  { vm_compute. left. }
  destruct (run_all_counts_values cls_kinds _ _ Hnd Hrun "fn_kind" Hfn)
    as (outs & d & Houts & Hd & Hget).
  assert (Hcombs : combinations_of (st_kinds VNone)
                   = [([VInt 0], None); ([VInt 1], None);
                      ([VInt 2], None); ([VInt 3], None)]).
  { vm_compute. reflexivity. }
  rewrite Hcombs in Houts.
  assert (Hout : outs = [VStr "zero"; VNone; VStr "many"; VStr "many"]).
  { repeat match goal with
           | H : Forall2 _ (_ :: _) _ |- _ =>
               apply Forall2_cons_inv_l in H as (? & ? & H1 & H & ->);
               vm_compute in H1; injection H1 as <-
           | H : Forall2 _ [] _ |- _ => apply Forall2_nil_inv_l in H as ->
           end. reflexivity. }
  exists d. split; [exact Hd|]. rewrite !Hget, Hout. split; reflexivity.
Defined.

(** X12: when [run_all] returns, the exception log of each classifier
    holds exactly one entry for every call of [update_exceptions] made
    under its name during the run, in the order the calls were made
    (combination by combination, classifier by classifier). *)
Theorem run_all_logs_reports (cls : review_class) (st st' : state) :
  run_all cls st = (st', inr tt) →
  ∀ fn_name, fn_name ∈ fn_names st →
    data_exceptions st' !! fn_name
    = Some (entries_for fn_name
              (all_reports cls (fn_names st) (combinations_of st))).
Proof. apply run_steps_logged_after_reset. Qed.

Lemma run_all_logs_reports_witness :
  data_exceptions (run_all cls_kinds (st_kinds VNone)).1 !! "fn_kind"
  = Some [EntryOpts [VInt 1]].
Proof.
  assert (Hrun : run_all cls_kinds (st_kinds VNone)
                 = ((run_all cls_kinds (st_kinds VNone)).1, inr tt)).
  { vm_compute. reflexivity. }
  assert (Hfn : "fn_kind" ∈ fn_names (st_kinds VNone)).
  { vm_compute. left. }
  rewrite (run_all_logs_reports cls_kinds _ _ Hrun "fn_kind" Hfn).
  vm_compute. reflexivity.
Defined.

(** ** When a run returns *)

Section Progress.
Variable cls : review_class.
Variable fns : list string.





End Progress.



(** X14: a generator hands its combinations out once. After a run over
    generated or looked-up combinations that returned, the generator is
    spent, and a second [run_all] returns at once with every classifier's
    tally and log empty: it resets the tables and has nothing to count. *)
Theorem run_all_again_counts_nothing (cls : review_class) (st st1 : state)
    (g : gen combination) :
  combinations st = CombGen g →
  run_all cls st = (st1, inr tt) →
  combinations st1 = CombGen (Gen [] None)
  ∧ ∃ st2,
      run_all cls st1 = (st2, inr tt)
      ∧ ∀ fn_name, fn_name ∈ fn_names st →
          data_values st2 !! fn_name = Some []
          ∧ data_exceptions st2 !! fn_name = Some [].
Proof.
  intros Hgen Hrun.
  pose proof (keeps_config_run_all cls st) as (_ & Hnames & _).
  rewrite Hrun in Hnames. simpl in Hnames.
  assert (Hspent : combinations st1 = CombGen (Gen [] None)).
  { rewrite run_all_unfold in Hrun.
    apply bind_ok in Hrun as ([] & st0 & Hreset & Hloop).
    destruct (reset_tables_ok (fn_names st) st)
      as (st0' & Hreset' & Hcomb & _).
    rewrite Hreset in Hreset'. injection Hreset' as <-.
    unfold for_combinations in Hloop. rewrite bind_run in Hloop.
    simpl in Hloop. rewrite Hcomb, Hgen in Hloop.
    by apply for_gen_steps in Hloop as (_ & _ & ?). }
  split; [exact Hspent|].
  destruct (reset_tables_ok (fn_names st1) st1)
    as (st0 & Hreset & Hcomb & _ & _ & Hin & _).
  exists (set_combinations (CombGen (Gen [] None)) st0). split.
  - rewrite run_all_unfold, bind_run, Hreset.
    unfold for_combinations. rewrite bind_run. simpl.
    by rewrite Hcomb, Hspent.
  - intros f Hf. simpl. apply Hin. by rewrite Hnames.
Qed.

Lemma run_all_again_counts_nothing_witness :
  ∃ st2,
    run_all cls_kinds (run_all cls_kinds (st_kinds VNone)).1 = (st2, inr tt)
    ∧ data_values st2 !! "fn_kind" = Some [].
Proof.
  assert (Hrun : run_all cls_kinds (st_kinds VNone)
                 = ((run_all cls_kinds (st_kinds VNone)).1, inr tt)).
  { vm_compute. reflexivity. }
  destruct (run_all_again_counts_nothing cls_kinds (st_kinds VNone)
              (run_all cls_kinds (st_kinds VNone)).1
              (Gen [([VInt 0], None); ([VInt 1], None);
                    ([VInt 2], None); ([VInt 3], None)] None))
    as (_ & st2 & Hrun2 & Htables).
  - vm_compute. reflexivity.
  - exact Hrun.
  - exists st2. split; [exact Hrun2|].
    apply Htables. vm_compute. left.
Defined.

(** ** The classifier names *)

(** X15: the classifier names that [__init__] stores are distinct. When
    a non-empty [fn_name] is given they are that one name; otherwise they
    are exactly the names of the methods of the class that start with
    [fn_]. When [__init__] returns, the instance holds these names, also
    after the run it was asked for. *)
Theorem init_fn_names_spec (cls : review_class) (args : init_args) :
  NoDup (init_fn_names cls args)
  ∧ (∀ c s, arg_fn_name args = Some (String c s) →
            init_fn_names cls args = [String c s])
  ∧ (arg_fn_name args = None ∨ arg_fn_name args = Some "" →
     ∀ fn_name,
       fn_name ∈ init_fn_names cls args
       ↔ is_Some (methods cls !! fn_name)
         ∧ String.prefix method_prefix fn_name = true)
  ∧ ((init cls args).2 = inr tt →
     fn_names (init cls args).1 = init_fn_names cls args).
Proof.
  split; [apply init_fn_names_NoDup|]. split; [|split].
  - intros c s Harg. unfold init_fn_names. by rewrite Harg.
  - intros Harg fn_name.
    assert (Hdir : init_fn_names cls args = dir_fn_names cls).
    { unfold init_fn_names. by destruct Harg as [->| ->]. }
    rewrite Hdir. unfold dir_fn_names.
    rewrite list_elem_of_filter, merge_sort_Permutation, list_elem_of_fmap.
    split.
    + intros [Hprefix ([k fn] & -> & Hin)].
      apply elem_of_map_to_list in Hin. simpl.
      split; [by eexists|]. by apply Is_true_true.
    + intros [[fn Hfn] Hprefix]. split; [by apply Is_true_true|].
      exists (fn_name, fn). split; [done|]. by apply elem_of_map_to_list.
  - unfold init, make_record_class.
    do 3 (rewrite bind_run; simpl). rewrite bind_run.
    destruct (bool_decide (NoDup (fields cls))); simpl; [|done].
    do 3 (rewrite bind_run; simpl). intros _.
    match goal with
    | |- context [(if ?b then run_all cls else ret tt) ?s] =>
        assert (Hcfg : same_config s ((if b then run_all cls else ret tt) s).1)
          by (destruct b; [apply keeps_config_run_all|apply keeps_config_ret])
    end.
    destruct Hcfg as (_ & Hn & _). by rewrite Hn.
Qed.

Lemma init_fn_names_spec_witness :
  init_fn_names cls_kinds no_args = ["fn_kind"; "fn_seen"]
  ∧ ("fn_kind" ∈ init_fn_names cls_kinds no_args
     ↔ is_Some (methods cls_kinds !! "fn_kind")
       ∧ String.prefix method_prefix "fn_kind" = true)
  ∧ fn_names (init cls_kinds (args_run VNone)).1
    = init_fn_names cls_kinds (args_run VNone).
Proof.
  split; [vm_compute; reflexivity|].
  destruct (init_fn_names_spec cls_kinds no_args) as (_ & _ & Hdir & _).
  destruct (init_fn_names_spec cls_kinds (args_run VNone))
    as (_ & _ & _ & Hinit).
  split.
  - apply Hdir. left. reflexivity.
  - apply Hinit. vm_compute. reflexivity.
Defined.

(** ** Running again over the caller's combinations *)

Section Rerun.
Variable cls : review_class.

Lemma keeps_combinations_bind {A B} (m : M A) (k : A → M B) :
  keeps_combinations m → (∀ a, keeps_combinations (k a)) →
  keeps_combinations (bind m k).
Proof.
  intros Hm Hk st. rewrite bind_run. specialize (Hm st).
  destruct (m st) as [st1 [e|a]]; [done|]. by rewrite Hk.
Qed.

Lemma keeps_combinations_for_each {A} (l : list A) (body : A → M unit) :
  (∀ x, keeps_combinations (body x)) → keeps_combinations (for_each l body).
Proof.
  intros Hbody. induction l as [|x l IH]; simpl; [done|].
  by apply keeps_combinations_bind.
Qed.

Lemma keeps_combinations_run_one (fns : list string) (c : combination) :
  keeps_combinations (run_one cls fns c).
Proof.
  destruct c as [record subject_visit]. simpl.
  apply keeps_combinations_for_each. intros fn_name.
  apply keeps_combinations_bind.
  - unfold call_method. destruct (methods cls !! fn_name) as [fn|]; [|done].
    destruct (fn record subject_visit) as [reports value].
    apply keeps_combinations_bind; [|done].
    apply keeps_combinations_for_each. intros r st.
    unfold update_exceptions.
    destruct (data_exceptions st !! report_fn r); [|done].
    simpl. by destruct (raise_exceptions st).
  - intros value st. unfold increment_counter.
    by destruct (data_values st !! fn_name).
Qed.

(** A run over the caller's list leaves the list in place. *)
Lemma run_all_keeps_list (st : state) (items : list combination) :
  combinations st = CombList items →
  combinations (run_all cls st).1 = CombList items.
Proof.
  intros Hlist. rewrite run_all_unfold, bind_run.
  destruct (reset_tables_ok (fn_names st) st) as (st0 & -> & Hcomb & _).
  unfold for_combinations. rewrite bind_run. simpl.
  rewrite Hcomb, Hlist.
  rewrite (keeps_combinations_for_each items (run_one cls (fn_names st))).
  - by rewrite Hcomb.
  - intros c. apply keeps_combinations_run_one.
Qed.

Lemma classify_outputs_unique (fn_name : string) (items : list combination) :
  ∀ outs1 outs2,
    Forall2 (λ c w, classify cls fn_name c = Some w) items outs1 →
    Forall2 (λ c w, classify cls fn_name c = Some w) items outs2 →
    outs1 = outs2.
Proof.
  induction items as [|c items IH]; intros outs1 outs2 H1 H2.
  - apply Forall2_nil_inv_l in H1, H2. by subst.
  - apply Forall2_cons_inv_l in H1 as (w1 & o1 & Hw1 & H1 & ->).
    apply Forall2_cons_inv_l in H2 as (w2 & o2 & Hw2 & H2 & ->).
    rewrite Hw1 in Hw2. injection Hw2 as ->. f_equal. by apply IH.
Qed.

End Rerun.

(** X16: counts do not add up across runs. When the combinations are the
    caller's list and [run_all] returns twice in a row, the second run
    leaves every classifier of the run with the same tally and the same
    exception log as the first: each run starts from empty tables and
    goes through the same list. *)
Theorem run_all_again_same_tables (cls : review_class) (st st1 st2 : state)
    (items : list combination) :
  NoDup (fn_names st) →
  combinations st = CombList items →
  run_all cls st = (st1, inr tt) →
  run_all cls st1 = (st2, inr tt) →
  ∀ fn_name, fn_name ∈ fn_names st →
    data_values st2 !! fn_name = data_values st1 !! fn_name
    ∧ data_exceptions st2 !! fn_name = data_exceptions st1 !! fn_name.
Proof.
  intros Hnd Hlist Hrun1 Hrun2 fn_name Hfn.
  pose proof (keeps_config_run_all cls st) as (_ & Hnames & _).
  pose proof (run_all_keeps_list cls st items Hlist) as Hlist1.
  rewrite Hrun1 in Hnames, Hlist1. simpl in Hnames, Hlist1.
  assert (Hcombs : combinations_of st1 = combinations_of st).
  { unfold combinations_of. by rewrite Hlist1, Hlist. }
  split.
  - apply run_all_steps in Hrun1 as (s1 & Hsteps1 & Hreset1).
    apply run_all_steps in Hrun2 as (s2 & Hsteps2 & Hreset2).
    rewrite Hnames, Hcombs in Hsteps2. rewrite Hnames in Hreset2.
    destruct (Hreset1 fn_name Hfn) as [Hd1 _].
    destruct (Hreset2 fn_name Hfn) as [Hd2 _].
    destruct (run_steps_values cls _ _ _ _ Hnd Hsteps1 fn_name Hfn [] Hd1)
      as (outs1 & Houts1 & ->).
    destruct (run_steps_values cls _ _ _ _ Hnd Hsteps2 fn_name Hfn [] Hd2)
      as (outs2 & Houts2 & ->).
    by rewrite (classify_outputs_unique cls _ _ _ _ Houts1 Houts2).
  - rewrite (run_steps_logged_after_reset cls _ _ Hrun1 fn_name Hfn).
    rewrite <- Hnames in Hfn.
    rewrite (run_steps_logged_after_reset cls _ _ Hrun2 fn_name Hfn).
    by rewrite Hnames, Hcombs.
Qed.

Lemma run_all_again_same_tables_witness :
  ∃ st1 st2,
    run_all cls_kinds (init cls_kinds args_listed).1 = (st1, inr tt)
    ∧ run_all cls_kinds st1 = (st2, inr tt)
    ∧ data_values st2 !! "fn_kind" = data_values st1 !! "fn_kind"
    ∧ tally st2 "fn_kind" = Some 2.
Proof.
  set (st := (init cls_kinds args_listed).1).
  set (st1 := (run_all cls_kinds st).1).
  set (st2 := (run_all cls_kinds st1).1).
  assert (Hrun1 : run_all cls_kinds st = (st1, inr tt)).
  { vm_compute. reflexivity. }
  assert (Hrun2 : run_all cls_kinds st1 = (st2, inr tt)).
  { vm_compute. reflexivity. }
  exists st1, st2. split; [exact Hrun1|]. split; [exact Hrun2|].
  split; [|vm_compute; reflexivity].
  apply (run_all_again_same_tables cls_kinds st st1 st2
           [([VInt 0], None); ([VInt 2], Some 4)]).
  - apply (bool_decide_unpack _). vm_compute. exact I.
  - vm_compute. reflexivity.
  - exact Hrun1.
  - exact Hrun2.
  - vm_compute. left.
Defined.
